(** * Daily-Expense-Report: the Gemini transcription client

    A shallow embedding of [geminiService.ts]: the audio encoder
    [blobToBase64], the retry helper [retryOperation] and the exported
    [processAudioWithGemini], together with the pieces of the JavaScript
    platform they call (string methods, [JSON.parse], [FileReader], the
    console and timers).

    Conventions.
    - A JavaScript string is its sequence of UTF-16 code units.
    - The numbers [retries] and [delay] of the retry helper are integers
      of [Z] in [retryOperation], which is exact for the default budget
      and delay that the client uses, and binary64 floats in
      [retryOperation_number], the helper for every number.
    - An [async] function is a function of the state of the outside world
      that returns a settled promise, the new state of the world and the
      events it caused, in order. *)

From Stdlib Require Import ZArith NArith String Ascii List Bool Lia.
From Stdlib.Strings Require Import Byte.
From Stdlib Require Import PrimFloat.
From Equations Require Import Equations.
Import ListNotations.

(** ** JavaScript strings *)

Definition jsstring : Type := list N.

(** The code units of an ASCII literal of the source. *)
Definition js (s : string) : jsstring :=
  List.map N_of_ascii (list_ascii_of_string s).

Definition jsstring_eq_dec : forall a b : jsstring, {a = b} + {a <> b} :=
  list_eq_dec N.eq_dec.

(** ** Thrown values and promises *)

(** The values this program throws or sees thrown. [Foreign] stands for a
    value made outside the program: the [ProgressEvent] of a failed read,
    a network failure or an API error of the SDK. *)
Inductive exn : Type :=
| Error (message : jsstring)
| SyntaxError
| TypeError
| Foreign (what : jsstring).

Inductive promise (A : Type) : Type :=
| Fulfilled (value : A)
| Rejected (reason : exn).

Arguments Fulfilled {A} value.
Arguments Rejected {A} reason.

(** ** Asynchronous computations

    [W] is the state of the outside world, [X] the type of the events a
    computation can cause. Events are only ever appended. *)

Definition async (W X A : Type) : Type := W -> promise A * W * list X.

Section Async.
Context {W X : Type}.

Definition ret {A} (v : A) : async W X A :=
  fun w => (Fulfilled v, w, []).

Definition throw {A} (e : exn) : async W X A :=
  fun w => (Rejected e, w, []).

Definition emit (x : X) : async W X unit :=
  fun w => (Fulfilled tt, w, [x]).

Definition bind {A B} (m : async W X A) (k : A -> async W X B) : async W X B :=
  fun w =>
    match m w with
    | (Fulfilled v, w1, l1) =>
        let '(r, w2, l2) := k v w1 in (r, w2, l1 ++ l2)
    | (Rejected e, w1, l1) => (Rejected e, w1, l1)
    end.

(** [try { m } catch (error) { h error }] *)
Definition try_catch {A} (m : async W X A) (h : exn -> async W X A) : async W X A :=
  fun w =>
    match m w with
    | (Fulfilled v, w1, l1) => (Fulfilled v, w1, l1)
    | (Rejected e, w1, l1) =>
        let '(r, w2, l2) := h e w1 in (r, w2, l1 ++ l2)
    end.
End Async.

Declare Scope async_scope.
Delimit Scope async_scope with async.
Notation "x <- m ;; k" := (bind m (fun x => k))
  (at level 61, m at next level, right associativity) : async_scope.
Notation "m ;; k" := (bind m (fun _ => k))
  (at level 61, right associativity) : async_scope.

(** ** The retry helper *)

(** What [retryOperation] does, as seen from outside: it calls the
    operation, writes a warning to the console, waits on a timer. The events
    of the operation itself are wrapped in [Inner]. *)
Inductive retry_event (X : Type) : Type :=
| Invoke
| ConsoleWarn (attemptsLeft : Z)
| SetTimeout (ms : Z)
| Inner (x : X).

Arguments Invoke {X}.
Arguments ConsoleWarn {X} attemptsLeft.
Arguments SetTimeout {X} ms.
Arguments Inner {X} x.

Definition default_retries : Z := 2.
Definition default_delay : Z := 1000.

(** [async function retryOperation<T>(operation, retries = 2, delay = 1000)],
    with integers for [retries] and [delay]: exact for the defaults, with
    which the client calls it ([retryOperation_default_exact] below);
    [retryOperation_number] is the same function for every number. *)
Equations? retryOperation {W X T : Type} (operation : async W X T)
    (retries delay : Z) (w : W) : promise T * W * list (retry_event X)
    by wf (Z.to_nat retries) lt :=
  retryOperation operation retries delay w with operation w := {
    | (Fulfilled v, w1, l) => (Fulfilled v, w1, Invoke :: List.map Inner l);
    | (Rejected error, w1, l) with Z_gt_dec retries 0 := {
        | left _ =>
            let '(r, w2, l2) :=
              retryOperation operation (retries - 1) (delay * 2) w1 in
            (r, w2,
             Invoke :: List.map Inner l
               ++ ConsoleWarn retries :: SetTimeout delay :: l2);
        | right _ => (Rejected error, w1, Invoke :: List.map Inner l) } }.
Proof. lia. Qed.

(** A call that leaves out [retries] and [delay]. *)
Definition retryOperation_default {W X T : Type} (operation : async W X T)
  : async W (retry_event X) T :=
  retryOperation operation default_retries default_delay.

(** ** String methods of the platform *)

Open Scope N_scope.

(** [WhiteSpace] and [LineTerminator] of ECMAScript, which [trim] strips:
    TAB, LF, VT, FF, CR, SP, NBSP, the other space separators, LS, PS
    and ZWNBSP. *)
Definition is_white_space (c : N) : bool :=
  ((9 <=? c) && (c <=? 13)) || (c =? 32) || (c =? 160) || (c =? 5760)
  || ((8192 <=? c) && (c <=? 8202)) || (c =? 8232) || (c =? 8233)
  || (c =? 8239) || (c =? 8287) || (c =? 12288) || (c =? 65279).

Fixpoint trimStart (s : jsstring) : jsstring :=
  match s with
  | [] => []
  | c :: r => if is_white_space c then trimStart r else s
  end.

Definition trimEnd (s : jsstring) : jsstring := rev (trimStart (rev s)).

Definition trim (s : jsstring) : jsstring := trimEnd (trimStart s).

Fixpoint startsWith (s p : jsstring) {struct p} : bool :=
  match p, s with
  | [], _ => true
  | _ :: _, [] => false
  | a :: p', b :: s' => (a =? b) && startsWith s' p'
  end.

Definition endsWith (s p : jsstring) : bool := startsWith (rev s) (rev p).

(** [s.replace(/^p/, '')] for a literal [p]: the pattern can only match at
    the start of the string. *)
Definition replace_at_start (p s : jsstring) : jsstring :=
  if startsWith s p then skipn (length p) s else s.

(** [s.replace(/p$/, '')] for a literal [p], without the [m] flag: the
    pattern can only match where it ends the string. *)
Definition replace_at_end (p s : jsstring) : jsstring :=
  if endsWith s p then firstn (length s - length p) s else s.

(** [s.split(sep)] for a separator of one code unit. *)
Fixpoint split (sep : N) (s : jsstring) : list jsstring :=
  match s with
  | [] => [[]]
  | c :: r =>
      if c =? sep then [] :: split sep r
      else match split sep r with
           | h :: t => (c :: h) :: t
           | [] => [[c]]
           end
  end.

(** ** [JSON.parse]

    The parser of the platform, after the JSON grammar of ECMA-404 that
    ECMAScript prescribes: a lexer that reads one code unit at a time, then
    a stack automaton over the tokens. A number keeps its literal, of which
    the double is a function, and an object keeps its members in the order
    of the text, of which the JavaScript object is a function (a later
    member of the same name wins, see [lookup]). *)

#[local] Unset Elimination Schemes.
Inductive json : Type :=
| JNull
| JBool (b : bool)
| JNumber (literal : jsstring)
| JString (s : jsstring)
| JArray (elements : list json)
| JObject (members : list (jsstring * json)).
#[local] Set Elimination Schemes.

Inductive token : Type :=
| TLBrace | TRBrace | TLBracket | TRBracket | TColon | TComma
| TString (s : jsstring)
| TNumber (literal : jsstring)
| TTrue | TFalse | TNull.

(** Where the lexer is inside a number: after the minus sign, after a
    leading zero, in the digits of the integer part, after the point, in the
    digits of the fraction, after the exponent mark, after the sign of the
    exponent, in the digits of the exponent. *)
Inductive numphase : Type :=
| NMinus | NZero | NInt | NPoint | NFrac | NExpMark | NExpSign | NExp.

Inductive lexstate : Type :=
| LBetween
| LString (acc : jsstring)
| LEscape (acc : jsstring)
| LUnicode (acc : jsstring) (todo : nat) (value : N)
| LName (tok : token) (rest : jsstring)
| LNumber (ph : numphase) (acc : jsstring)
| LError.

(** The tokens read so far, last first, and the state. The accumulators of
    the states hold code units last first too. *)
Definition lexer : Type := (list token * lexstate)%type.

Definition is_json_ws (c : N) : bool :=
  (c =? 9) || (c =? 10) || (c =? 13) || (c =? 32).

Definition is_digit (c : N) : bool := (48 <=? c) && (c <=? 57).

Definition is_exp_mark (c : N) : bool := (c =? 101) || (c =? 69).

Definition hex_value (c : N) : option N :=
  if (48 <=? c) && (c <=? 57) then Some (c - 48)
  else if (97 <=? c) && (c <=? 102) then Some (c - 87)
  else if (65 <=? c) && (c <=? 70) then Some (c - 55)
  else None.

Definition lex_start (toks : list token) (c : N) : lexer :=
  if is_json_ws c then (toks, LBetween)
  else if c =? 123 then (TLBrace :: toks, LBetween)
  else if c =? 125 then (TRBrace :: toks, LBetween)
  else if c =? 91 then (TLBracket :: toks, LBetween)
  else if c =? 93 then (TRBracket :: toks, LBetween)
  else if c =? 58 then (TColon :: toks, LBetween)
  else if c =? 44 then (TComma :: toks, LBetween)
  else if c =? 34 then (toks, LString [])
  else if c =? 45 then (toks, LNumber NMinus [c])
  else if c =? 48 then (toks, LNumber NZero [c])
  else if is_digit c then (toks, LNumber NInt [c])
  else if c =? 116 then (toks, LName TTrue (js "rue"))
  else if c =? 102 then (toks, LName TFalse (js "alse"))
  else if c =? 110 then (toks, LName TNull (js "ull"))
  else (toks, LError).

Definition lex_escape (acc : jsstring) (c : N) : lexstate :=
  if c =? 34 then LString (34 :: acc)
  else if c =? 92 then LString (92 :: acc)
  else if c =? 47 then LString (47 :: acc)
  else if c =? 98 then LString (8 :: acc)
  else if c =? 102 then LString (12 :: acc)
  else if c =? 110 then LString (10 :: acc)
  else if c =? 114 then LString (13 :: acc)
  else if c =? 116 then LString (9 :: acc)
  else if c =? 117 then LUnicode acc 4 0
  else LError.

Definition lex_number (toks : list token) (ph : numphase) (acc : jsstring)
    (c : N) : lexer :=
  let more ph' := (toks, LNumber ph' (c :: acc)) in
  let done := lex_start (TNumber (rev acc) :: toks) c in
  match ph with
  | NMinus =>
      if c =? 48 then more NZero
      else if is_digit c then more NInt else (toks, LError)
  | NZero =>
      if c =? 46 then more NPoint
      else if is_exp_mark c then more NExpMark else done
  | NInt =>
      if is_digit c then more NInt
      else if c =? 46 then more NPoint
      else if is_exp_mark c then more NExpMark else done
  | NPoint => if is_digit c then more NFrac else (toks, LError)
  | NFrac =>
      if is_digit c then more NFrac
      else if is_exp_mark c then more NExpMark else done
  | NExpMark =>
      if (c =? 43) || (c =? 45) then more NExpSign
      else if is_digit c then more NExp else (toks, LError)
  | NExpSign => if is_digit c then more NExp else (toks, LError)
  | NExp => if is_digit c then more NExp else done
  end.

Definition lex_step (st : lexer) (c : N) : lexer :=
  let '(toks, q) := st in
  match q with
  | LBetween => lex_start toks c
  | LString acc =>
      if c =? 34 then (TString (rev acc) :: toks, LBetween)
      else if c =? 92 then (toks, LEscape acc)
      else if c <? 32 then (toks, LError)
      else (toks, LString (c :: acc))
  | LEscape acc => (toks, lex_escape acc c)
  | LUnicode acc todo value =>
      match hex_value c, todo with
      | Some h, 1%nat => (toks, LString (value * 16 + h :: acc))
      | Some h, S k => (toks, LUnicode acc k (value * 16 + h))
      | _, _ => (toks, LError)
      end
  | LName tok rest =>
      match rest with
      | [x] => if c =? x then (tok :: toks, LBetween) else (toks, LError)
      | x :: r => if c =? x then (toks, LName tok r) else (toks, LError)
      | [] => (toks, LError)
      end
  | LNumber ph acc => lex_number toks ph acc c
  | LError => (toks, LError)
  end.

Definition number_complete (ph : numphase) : bool :=
  match ph with
  | NZero | NInt | NFrac | NExp => true
  | _ => false
  end.

(** The end of the text. *)
Definition lex_finish (st : lexer) : option (list token) :=
  let '(toks, q) := st in
  match q with
  | LBetween => Some (rev toks)
  | LNumber ph acc =>
      if number_complete ph then Some (rev (TNumber (rev acc) :: toks))
      else None
  | _ => None
  end.

Definition tokenize (s : jsstring) : option (list token) :=
  lex_finish (fold_left lex_step s ([], LBetween)).

(** The containers that are open around the value being read, innermost
    first, with what they hold so far (last first). *)
Inductive frame : Type :=
| InArray (done : list json)
| InObject (done : list (jsstring * json)) (key : jsstring).

Inductive pstate : Type :=
| PValue (stack : list frame)
| PArrayStart (stack : list frame)
| PArrayNext (done : list json) (stack : list frame)
| PObjectStart (stack : list frame)
| PObjectKey (done : list (jsstring * json)) (stack : list frame)
| PObjectColon (done : list (jsstring * json)) (key : jsstring)
    (stack : list frame)
| PObjectNext (done : list (jsstring * json)) (stack : list frame)
| PDone (v : json)
| PError.

(** A value is complete: it goes to the innermost open container. *)
Definition deliver (v : json) (stack : list frame) : pstate :=
  match stack with
  | [] => PDone v
  | InArray done :: st => PArrayNext (v :: done) st
  | InObject done key :: st => PObjectNext ((key, v) :: done) st
  end.

Definition parse_value (tok : token) (stack : list frame) : pstate :=
  match tok with
  | TNull => deliver JNull stack
  | TTrue => deliver (JBool true) stack
  | TFalse => deliver (JBool false) stack
  | TNumber l => deliver (JNumber l) stack
  | TString s => deliver (JString s) stack
  | TLBracket => PArrayStart stack
  | TLBrace => PObjectStart stack
  | _ => PError
  end.

Definition parse_step (st : pstate) (tok : token) : pstate :=
  match st with
  | PValue stack => parse_value tok stack
  | PArrayStart stack =>
      match tok with
      | TRBracket => deliver (JArray []) stack
      | _ => parse_value tok (InArray [] :: stack)
      end
  | PArrayNext done stack =>
      match tok with
      | TComma => PValue (InArray done :: stack)
      | TRBracket => deliver (JArray (rev done)) stack
      | _ => PError
      end
  | PObjectStart stack =>
      match tok with
      | TRBrace => deliver (JObject []) stack
      | TString k => PObjectColon [] k stack
      | _ => PError
      end
  | PObjectKey done stack =>
      match tok with
      | TString k => PObjectColon done k stack
      | _ => PError
      end
  | PObjectColon done k stack =>
      match tok with
      | TColon => PValue (InObject done k :: stack)
      | _ => PError
      end
  | PObjectNext done stack =>
      match tok with
      | TComma => PObjectKey done stack
      | TRBrace => deliver (JObject (rev done)) stack
      | _ => PError
      end
  | PDone _ => PError
  | PError => PError
  end.

Definition parse_tokens (toks : list token) : option json :=
  match fold_left parse_step toks (PValue []) with
  | PDone v => Some v
  | _ => None
  end.

(** [JSON.parse(text)]: the value, or the [SyntaxError] it throws. *)
Definition JSON_parse (text : jsstring) : exn + json :=
  match tokenize text with
  | Some toks =>
      match parse_tokens toks with
      | Some v => inr v
      | None => inl SyntaxError
      end
  | None => inl SyntaxError
  end.

(** ** Base64 (RFC 4648), as [FileReader.readAsDataURL] writes it *)

Definition base64_char (i : N) : N :=
  if i <? 26 then 65 + i
  else if i <? 52 then 97 + (i - 26)
  else if i <? 62 then 48 + (i - 52)
  else if i =? 62 then 43
  else 47.

Definition base64_pad : N := 61.

Fixpoint base64_encode (bs : list byte) : jsstring :=
  match bs with
  | [] => []
  | [a] =>
      let a := Byte.to_N a in
      [base64_char (a / 4); base64_char (a mod 4 * 16); base64_pad; base64_pad]
  | [a; b] =>
      let a := Byte.to_N a in
      let b := Byte.to_N b in
      [base64_char (a / 4); base64_char (a mod 4 * 16 + b / 16);
       base64_char (b mod 16 * 4); base64_pad]
  | a :: b :: c :: r =>
      let a := Byte.to_N a in
      let b := Byte.to_N b in
      let c := Byte.to_N c in
      base64_char (a / 4) :: base64_char (a mod 4 * 16 + b / 16)
        :: base64_char (b mod 16 * 4 + c / 64) :: base64_char (c mod 64)
        :: base64_encode r
  end.

Definition base64_index (c : N) : option N :=
  if (65 <=? c) && (c <=? 90) then Some (c - 65)
  else if (97 <=? c) && (c <=? 122) then Some (c - 97 + 26)
  else if (48 <=? c) && (c <=? 57) then Some (c - 48 + 52)
  else if c =? 43 then Some 62
  else if c =? 47 then Some 63
  else None.

Definition byte_of (n : N) : option byte := Byte.of_N n.

(** Decoding, with which "valid base64 of these bytes" is stated: groups of
    four characters, padding only in the last group, no stray bits. *)
Fixpoint base64_decode (s : jsstring) : option (list byte) :=
  match s with
  | [] => Some []
  | c1 :: c2 :: c3 :: c4 :: r =>
      match base64_index c1, base64_index c2 with
      | Some i1, Some i2 =>
          match byte_of (i1 * 4 + i2 / 16) with
          | None => None
          | Some a =>
              if (c3 =? base64_pad) && (c4 =? base64_pad) then
                match r with
                | [] => if i2 mod 16 =? 0 then Some [a] else None
                | _ => None
                end
              else
                match base64_index c3 with
                | None => None
                | Some i3 =>
                    match byte_of (i2 mod 16 * 16 + i3 / 4) with
                    | None => None
                    | Some b =>
                        if c4 =? base64_pad then
                          match r with
                          | [] => if i3 mod 4 =? 0 then Some [a; b] else None
                          | _ => None
                          end
                        else
                          match base64_index c4 with
                          | None => None
                          | Some i4 =>
                              match byte_of (i3 mod 4 * 64 + i4),
                                    base64_decode r with
                              | Some c, Some rest => Some (a :: b :: c :: rest)
                              | _, _ => None
                              end
                          end
                    end
                end
          end
      | _, _ => None
      end
  | _ => None
  end.

(** ** Blobs and the encoder's platform *)

Record Blob : Type := { type : jsstring; bytes : list byte }.

(** The data URL that a successful [readAsDataURL] leaves in
    [reader.result]: the media type of the blob (browsers write
    [application/octet-stream] for a blob without one), the base64 marker,
    and the base64 of the bytes. *)
Definition dataURL (blob : Blob) : jsstring :=
  js "data:"
    ++ (match type blob with
        | [] => js "application/octet-stream"
        | t => t
        end)
    ++ js ";base64," ++ base64_encode (bytes blob).

Inductive reader_event : Type :=
| ReadAsDataURL (blob : Blob)
| Uncaught (e : exn).

(** ** The request *)

#[local] Unset Elimination Schemes.
Inductive schema : Type :=
| SString (description : jsstring)
| SNumber (description : jsstring)
| SArray (items : schema)
| SObject (properties : list (jsstring * schema)).
#[local] Set Elimination Schemes.

Definition responseSchema : schema :=
  SObject
    [(js "transcription",
      SString (js "The exact Hindi or English transcription of the audio."));
     (js "translation",
      SString (js "The English translation of the transcription."));
     (js "expenses",
      SArray
        (SObject
           [(js "item", SString (js "The name of the item purchased."));
            (js "amount",
             SNumber (js "The cost of the item. Resolve words like 'lakh', 'hazar' to numbers."));
            (js "category",
             SString (js "Category of the expense (e.g., Food, Electronics, Transport)."))]));
     (js "totalAmount",
      SNumber (js "The sum of all expense amounts detected."));
     (js "currency",
      SString (js "The currency detected (e.g., INR, USD)."))].

(** The lines of a template literal, joined by line feeds. *)
Fixpoint unlines (ls : list jsstring) : jsstring :=
  match ls with
  | [] => []
  | [l] => l
  | l :: r => l ++ 10 :: unlines r
  end.

Definition systemInstruction : jsstring :=
  unlines
    [[];
     js "    You are an expert financial assistant and translator. ";
     js "    Your goal is to listen to audio recordings that may contain mixed Hindi and English speech about daily expenses.";
     js "    ";
     js "    Tasks:";
     js "    1. Transcribe the audio accurately in the original script (Devanagari for Hindi).";
     js "    2. Translate it to clear English.";
     js "    3. Extract every single expense item mentioned.";
     js "    4. CRITICAL: Convert number words to digits with extreme precision. ";
     js "       - Handle Indian numbering system: " ++ [34] ++ js "ek lakh" ++ [34] ++ js " = 100000, " ++ [34] ++ js "pachis hazar" ++ [34] ++ js " = 25000, " ++ [34] ++ js "dedh lakh" ++ [34] ++ js " = 150000.";
     js "       - Handle mixed phrasing: " ++ [34] ++ js "200 ka aaloo" ++ [34] ++ js " (200 for potatoes).";
     js "    5. Categorize each item accurately.";
     js "    6. Calculate the total sum.";
     js "  "].

Inductive part : Type :=
| InlineData (mimeType : jsstring) (data : option jsstring)
| TextPart (text : jsstring).

Record safetySetting : Type := { category : jsstring; threshold : jsstring }.

(** A decimal literal of the source: [digits] times ten to the [exponent]. *)
Record decimal : Type := { digits : Z; exponent : Z }.

Record GenerateContentConfig : Type := {
  config_systemInstruction : jsstring;
  responseMimeType : jsstring;
  config_responseSchema : schema;
  temperature : decimal;
  safetySettings : list safetySetting
}.

Record GenerateContentParameters : Type := {
  model : jsstring;
  contents : list part;
  config : GenerateContentConfig
}.

(** What the program reads of the reply: [response.text], which is
    [undefined] ([None]) when the reply has no text part. *)
Record GenerateContentResponse : Type := { text : option jsstring }.

(** [ToBoolean] of a value that is a string or [undefined]. *)
Definition ToBoolean (v : option jsstring) : bool :=
  match v with
  | None => false
  | Some [] => false
  | Some (_ :: _) => true
  end.

(** Lines 130 to 136: the text that goes to [JSON.parse]. *)
Definition cleanText (text : jsstring) : jsstring :=
  let cleanText := trim text in
  if startsWith cleanText (js "```json") then
    replace_at_end (js "```") (replace_at_start (js "```json") cleanText)
  else if startsWith cleanText (js "```") then
    replace_at_end (js "```") (replace_at_start (js "```") cleanText)
  else cleanText.

Inductive attempt_event : Type :=
| GenerateContent (request : GenerateContentParameters)
| JSONParse (text : jsstring)
| ConsoleError (label : jsstring) (error : exn).

Inductive client_event : Type :=
| Encoder (e : reader_event)
| Retry (e : retry_event attempt_event).

Definition relabel {W X Y A : Type} (f : X -> Y) (m : async W X A)
  : async W Y A :=
  fun w => let '(r, w1, l) := m w in (r, w1, List.map f l).

Open Scope async_scope.

Section Client.
(** The outside world: in a state [w], whether reading a blob fails (and
    with which error event), and what the model service answers to a
    request. *)
Variable W : Type.
Variable read : Blob -> W -> option exn * W.
Variable generateContent :
  GenerateContentParameters -> W -> promise GenerateContentResponse * W.

(** [blobToBase64]. A [FileReader] fires [load] then [loadend] after a
    successful read, and [error] then [loadend] after a failed one; in
    the second case [reject] has settled the promise when the [loadend]
    handler finds [reader.result] null and throws. *)
Definition blobToBase64 (blob : Blob)
  : async W reader_event (option jsstring) :=
  fun w =>
    match read blob w with
    | (None, w1) =>
        let base64data := dataURL blob in
        (Fulfilled (nth_error (split 44 base64data) 1), w1,
         [ReadAsDataURL blob])
    | (Some event, w1) =>
        (Rejected event, w1, [ReadAsDataURL blob; Uncaught TypeError])
    end.

Definition request (audioBlob : Blob) (base64Audio : option jsstring)
  : GenerateContentParameters :=
  {| model := js "gemini-2.5-flash";
     contents :=
       [InlineData
          (match type audioBlob with
           | [] => js "audio/webm"
           | t => t
           end)
          base64Audio;
        TextPart (js "Please analyze this audio for expenses.")];
     config :=
       {| config_systemInstruction := systemInstruction;
          responseMimeType := js "application/json";
          config_responseSchema := responseSchema;
          temperature := {| digits := 1; exponent := -1 |};
          safetySettings :=
            [{| category := js "HARM_CATEGORY_HARASSMENT";
                threshold := js "BLOCK_ONLY_HIGH" |};
             {| category := js "HARM_CATEGORY_HATE_SPEECH";
                threshold := js "BLOCK_ONLY_HIGH" |};
             {| category := js "HARM_CATEGORY_SEXUALLY_EXPLICIT";
                threshold := js "BLOCK_ONLY_HIGH" |};
             {| category := js "HARM_CATEGORY_DANGEROUS_CONTENT";
                threshold := js "BLOCK_ONLY_HIGH" |}] |} |}.

Definition call_generateContent (req : GenerateContentParameters)
  : async W attempt_event GenerateContentResponse :=
  fun w =>
    let '(r, w1) := generateContent req w in (r, w1, [GenerateContent req]).

Definition call_JSON_parse (s : jsstring) : async W attempt_event json :=
  emit (JSONParse s) ;;
  match JSON_parse s with
  | inr v => ret v
  | inl e => throw e
  end.

(** The [try] block of the operation (lines 98 to 141). *)
Definition attempt_body (audioBlob : Blob) (base64Audio : option jsstring)
  : async W attempt_event json :=
  response <- call_generateContent (request audioBlob base64Audio) ;;
  if ToBoolean (text response) then
    match text response with
    | Some t => call_JSON_parse (cleanText t)
    | None => throw TypeError
    end
  else throw (Error (js "Empty response from Gemini")).

Definition error_label : jsstring := js "Gemini API Error (Attempt failed):".

(** The operation handed to [retryOperation] (lines 96 to 146). *)
Definition attempt (audioBlob : Blob) (base64Audio : option jsstring)
  : async W attempt_event json :=
  try_catch (attempt_body audioBlob base64Audio)
    (fun error => emit (ConsoleError error_label error) ;; throw error).

(** [processAudioWithGemini]. The client object [ai] is made first, from
    the API key of the build; making it calls nothing outside, and
    [generateContent] stands for its method [ai.models.generateContent]. *)
Definition processAudioWithGemini (audioBlob : Blob)
  : async W client_event json :=
  base64Audio <- relabel Encoder (blobToBase64 audioBlob) ;;
  relabel Retry (retryOperation_default (attempt audioBlob base64Audio)).
End Client.

Close Scope async_scope.

(** ** What the statements below speak of *)

(** How often the operation was called, and the waits, in order. *)
Fixpoint invocations {X : Type} (l : list (retry_event X)) : nat :=
  match l with
  | [] => 0
  | Invoke :: r => S (invocations r)
  | _ :: r => invocations r
  end.

Fixpoint delays {X : Type} (l : list (retry_event X)) : list Z :=
  match l with
  | [] => []
  | SetTimeout ms :: r => ms :: delays r
  | _ :: r => delays r
  end.

(** How often [JSON.parse] and the model were called. *)
Fixpoint parse_calls (l : list attempt_event) : nat :=
  match l with
  | [] => 0
  | JSONParse _ :: r => S (parse_calls r)
  | _ :: r => parse_calls r
  end.

Fixpoint model_calls (l : list client_event) : nat :=
  match l with
  | [] => 0
  | Retry (Inner (GenerateContent _)) :: r => S (model_calls r)
  | _ :: r => model_calls r
  end.

Fixpoint retries_made (l : list client_event) : nat :=
  match l with
  | [] => 0
  | Retry (SetTimeout _) :: r => S (retries_made r)
  | _ :: r => retries_made r
  end.

(** What [blobToBase64] resolves with after a successful read. *)
Definition encoded (blob : Blob) : option jsstring :=
  nth_error (split 44 (dataURL blob)) 1.

Definition empty_response_error : exn :=
  Error (js "Empty response from Gemini").

(** An operation that fails whenever it is called. *)
Definition always_fails {W X T : Type} (operation : async W X T) : Prop :=
  forall w, exists e w1 l, operation w = (Rejected e, w1, l).

(** The MIME type that a request carries. *)
Definition request_mimeType (r : GenerateContentParameters)
  : option jsstring :=
  match contents r with
  | InlineData m _ :: _ => Some m
  | _ => None
  end.

(** The property [k] of the object made from these members: the last
    member of that name. *)
Fixpoint lookup (k : jsstring) (members : list (jsstring * json))
  : option json :=
  match members with
  | [] => None
  | (k', v) :: r =>
      match lookup k r with
      | Some v' => Some v'
      | None => if jsstring_eq_dec k k' then Some v else None
      end
  end.

(** A value has the shape that [responseSchema] asks of the model. *)
Fixpoint conforms (s : schema) (v : json) : bool :=
  match s, v with
  | SString _, JString _ => true
  | SNumber _, JNumber _ => true
  | SArray items, JArray l => forallb (conforms items) l
  | SObject props, JObject members =>
      forallb
        (fun p : jsstring * schema =>
           let '(k, s') := p in
           match lookup k members with
           | Some v' => conforms s' v'
           | None => false
           end)
        props
  | _, _ => false
  end.

(** Modelled from the spec: the type [ExpenseResponse] of [../types], which
    is not among the sources; section 3 of the specification gives it the
    fields of [responseSchema]. A well-formed ExpenseResponse text is one
    that [JSON.parse] accepts and whose value has that shape. *)
Definition well_formed_ExpenseResponse (t : jsstring) : Prop :=
  exists v, JSON_parse t = inr v /\ conforms responseSchema v = true.

(** What holds of every state the lexer reaches: the rest of a literal
    name that it still expects has no white space in it. *)
Definition lexer_ok (st : lexer) : Prop :=
  match snd st with
  | LName _ rest => forallb (fun x => negb (is_white_space x)) rest = true
  | _ => True
  end.

(** A text inside a [json] code fence, with the white space [pre] and
    [post] (line feeds, as a rule) between the fence and the text. *)
Definition fence (pre post t : jsstring) : jsstring :=
  js "```json" ++ pre ++ t ++ post ++ js "```".

(** ** Test doubles

    Worlds and operations small enough to run, on which the statements
    below are tried. *)

(** An operation over a world without state that fails whenever it is
    called. *)
Definition failing_operation : async unit unit nat :=
  fun w => (Rejected (Foreign (js "503")), w, [tt]).

(** A scripted operation: the world is the list of the outcomes still to
    come, and each call takes the next one. *)
Definition scripted_operation : async (list (promise nat)) unit nat :=
  fun w =>
    match w with
    | [] => (Rejected (Foreign (js "script exhausted")), [], [tt])
    | r :: w1 => (r, w1, [tt])
    end.

(** A scripted platform: whether blobs can be read, and the replies of the
    model service still to come. *)
Record mock_world : Type := {
  readable : bool;
  replies : list (promise GenerateContentResponse)
}.

Definition mock_read (blob : Blob) (w : mock_world)
  : option exn * mock_world :=
  (if readable w then None else Some (Foreign (js "NotReadableError")), w).

Definition mock_generateContent (req : GenerateContentParameters)
    (w : mock_world) : promise GenerateContentResponse * mock_world :=
  match replies w with
  | [] => (Rejected (Foreign (js "Failed to fetch")), w)
  | r :: rest => (r, {| readable := readable w; replies := rest |})
  end.

Definition recorded_blob : Blob :=
  {| type := js "audio/webm;codecs=opus"; bytes := [x1a; x45; xdf; xa3] |}.

Definition untyped_blob : Blob :=
  {| type := []; bytes := [x1a; x45; xdf; xa3] |}.

(** Two services that always answer, one with the empty string for text,
    one with no text at all. *)
Definition answer_empty_string (req : GenerateContentParameters)
    (w : mock_world) : promise GenerateContentResponse * mock_world :=
  (Fulfilled {| text := Some [] |}, w).

Definition answer_no_text (req : GenerateContentParameters)
    (w : mock_world) : promise GenerateContentResponse * mock_world :=
  (Fulfilled {| text := None |}, w).

(** Straight quotes for the apostrophes of a literal, to write JSON
    texts with. *)
Definition quoted (s : string) : jsstring :=
  List.map (fun c => if c =? 39 then 34 else c) (js s).

Definition sample_response : jsstring :=
  quoted "{'transcription':'do sau ka aaloo','translation':'potatoes for 200','expenses':[{'item':'potatoes','amount':200,'category':'Food'}],'totalAmount':200,'currency':'INR'}".

(** A blob whose type lists two codecs, with a comma between them. *)
Definition multi_codec_blob : Blob :=
  {| type := js "audio/ogg;codecs=opus,vorbis";
     bytes := [x1a; x45; xdf; xa3] |}.

(** ** More of what runs are made of *)

(** The numbers of attempts left that the warnings announce, in order. *)
Fixpoint warnings {X : Type} (l : list (retry_event X)) : list Z :=
  match l with
  | [] => []
  | ConsoleWarn n :: r => n :: warnings r
  | _ :: r => warnings r
  end.

(** [k] waits that start at [delay] and double. *)
Fixpoint backoff (delay : Z) (k : nat) : list Z :=
  match k with
  | O => []
  | S k' => delay :: backoff (delay * 2) k'
  end.

(** [k] numbers down from [retries]. *)
Fixpoint countdown (retries : Z) (k : nat) : list Z :=
  match k with
  | O => []
  | S k' => retries :: countdown (retries - 1) k'
  end.

(** In a run of the client: the reads of the blob, the waits, and the
    errors written to the console. *)
Fixpoint reads (l : list client_event) : nat :=
  match l with
  | [] => 0
  | Encoder (ReadAsDataURL _) :: r => S (reads r)
  | _ :: r => reads r
  end.

Fixpoint waits (l : list client_event) : list Z :=
  match l with
  | [] => []
  | Retry (SetTimeout ms) :: r => ms :: waits r
  | _ :: r => waits r
  end.

Fixpoint console_errors (l : list client_event) : list exn :=
  match l with
  | [] => []
  | Retry (Inner (ConsoleError _ e)) :: r => e :: console_errors r
  | _ :: r => console_errors r
  end.

(** A fence without the [json] tag, and a [json] fence that is not
    closed. *)
Definition plain_fence (pre post t : jsstring) : jsstring :=
  js "```" ++ pre ++ t ++ post ++ js "```".

Definition unclosed_fence (pre post t : jsstring) : jsstring :=
  js "```json" ++ pre ++ t ++ post.

(** The loop that the specification describes: call the operation until
    it succeeds, at most [k] more times after the first call, each call in
    the world the one before left. *)
Fixpoint call_until_success {W X T : Type} (operation : async W X T)
    (k : nat) (w : W) : promise T * W :=
  match operation w with
  | (Fulfilled v, w1, _) => (Fulfilled v, w1)
  | (Rejected e, w1, _) =>
      match k with
      | O => (Rejected e, w1)
      | S k' => call_until_success operation k' w1
      end
  end.

(** What else holds of every state the lexer reaches: the rest of a
    literal name that it still expects is made of small letters. *)
Definition lexer_names (st : lexer) : Prop :=
  match snd st with
  | LName _ rest => forallb (fun x => (97 <=? x) && (x <=? 122)) rest = true
  | _ => True
  end.

(** A letter that no JSON text starts with ([f], [n] and [t] start the
    literal names) and that does not start the tag [json]. *)
Definition is_other_letter (c : N) : bool :=
  ((65 <=? c) && (c <=? 90))
  || ((97 <=? c) && (c <=? 122)
      && negb ((c =? 102) || (c =? 106) || (c =? 110) || (c =? 116))).

(** ** The build configuration ([vite.config.ts])

    [JSON.stringify] of a string, after [QuoteJSONString] of ECMAScript:
    the short escapes, a [u] escape for the other control characters and
    for a surrogate that is not part of a pair, anything else as it is. *)

Definition is_high_surrogate (c : N) : bool := (55296 <=? c) && (c <=? 56319).

Definition is_low_surrogate (c : N) : bool := (56320 <=? c) && (c <=? 57343).

Definition hex_digit (n : N) : N := if n <? 10 then 48 + n else 87 + n.

Definition unicode_escape (c : N) : jsstring :=
  [92; 117; hex_digit (c / 4096); hex_digit (c / 256 mod 16);
   hex_digit (c / 16 mod 16); hex_digit (c mod 16)].

Definition quote_code_unit (c : N) : jsstring :=
  if c =? 8 then [92; 98]
  else if c =? 9 then [92; 116]
  else if c =? 10 then [92; 110]
  else if c =? 12 then [92; 102]
  else if c =? 13 then [92; 114]
  else if c =? 34 then [92; 34]
  else if c =? 92 then [92; 92]
  else if c <? 32 then unicode_escape c
  else [c].

Fixpoint quote_code_points (s : jsstring) : jsstring :=
  match s with
  | [] => []
  | c :: r =>
      if is_high_surrogate c then
        match r with
        | d :: r' =>
            if is_low_surrogate d then c :: d :: quote_code_points r'
            else unicode_escape c ++ quote_code_points r
        | [] => unicode_escape c
        end
      else if is_low_surrogate c then unicode_escape c ++ quote_code_points r
      else quote_code_unit c ++ quote_code_points r
  end.

Definition QuoteJSONString (s : jsstring) : jsstring :=
  34 :: quote_code_points s ++ [34].

(** [JSON.stringify(v)] for a value that is a string or [undefined]. *)
Definition JSON_stringify (v : option jsstring) : option jsstring :=
  match v with
  | Some s => Some (QuoteJSONString s)
  | None => None
  end.

(** What the program makes of the configuration object: the plugins, by
    name, and the texts that the build puts in place of expressions. *)
Record UserConfig : Type := {
  plugins : list jsstring;
  define : list (jsstring * option jsstring)
}.

Section Vite.
(** [loadEnv mode envDir prefix] of Vite: the variables of the environment
    files of the mode, by name. *)
Variable loadEnv : jsstring -> jsstring -> jsstring -> jsstring -> option jsstring.

(** The function given to [defineConfig]; [cwd] is what [process.cwd()]
    returns. *)
Definition viteConfig (cwd mode : jsstring) : UserConfig :=
  let env := loadEnv mode cwd [] in
  {| plugins := [js "react"];
     define :=
       [(js "process.env.API_KEY", JSON_stringify (env (js "VITE_API_KEY")))] |}.
End Vite.

(** Environment files that give [VITE_API_KEY] a value with a quote, a
    backslash, a line feed, a control character, a surrogate pair and a
    lone surrogate in it. *)
Definition env_file (mode envDir prefix name : jsstring) : option jsstring :=
  if jsstring_eq_dec name (js "VITE_API_KEY")
  then Some [65; 34; 92; 10; 1; 55357; 56832; 56832; 233]
  else None.

(** ** The retry helper with the numbers of JavaScript

    [retries] and [delay] are numbers of JavaScript, binary64 floats:
    [retries - 1] and [delay * 2] round, [retries > 0] is false of NaN,
    and the recursion need not end (a budget of [2^54] is its own
    predecessor). The integers of [retryOperation] above are exact for the
    default budget and delay; this is the helper for every number.
    [fuel] bounds the calls of the operation: [None] says that [fuel] calls
    did not settle the promise. *)

Inductive number_event (X : Type) : Type :=
| NInvoke
| NConsoleWarn (attemptsLeft : float)
| NSetTimeout (ms : float)
| NInner (x : X).

Arguments NInvoke {X}.
Arguments NConsoleWarn {X} attemptsLeft.
Arguments NSetTimeout {X} ms.
Arguments NInner {X} x.

Fixpoint retryOperation_number {W X T : Type} (fuel : nat)
    (operation : async W X T) (retries delay : float) (w : W)
  : option (promise T * W * list (number_event X)) :=
  match fuel with
  | O => None
  | S fuel' =>
      match operation w with
      | (Fulfilled v, w1, l) =>
          Some (Fulfilled v, w1, NInvoke :: List.map NInner l)
      | (Rejected error, w1, l) =>
          if (0 <? retries)%float then
            match retryOperation_number fuel' operation
                    (retries - 1)%float (delay * 2)%float w1 with
            | Some (r, w2, l2) =>
                Some (r, w2,
                      NInvoke :: List.map NInner l
                        ++ NConsoleWarn retries :: NSetTimeout delay :: l2)
            | None => None
            end
          else Some (Rejected error, w1, NInvoke :: List.map NInner l)
      end
  end.

(** [k] subtractions of 1 take the budget from above 0 to a number that
    is not above 0: [k] is the number of retries that the budget allows. *)
Fixpoint counts_down (retries : float) (k : nat) : bool :=
  match k with
  | O => negb (0 <? retries)%float
  | S k' => (0 <? retries)%float && counts_down (retries - 1)%float k'
  end.

(** [k] waits from [delay], each the double of the one before, and [k]
    budgets from [retries], each the one before less 1, as binary64
    computes them. *)
Fixpoint number_backoff (delay : float) (k : nat) : list float :=
  match k with
  | O => []
  | S k' => delay :: number_backoff (delay * 2)%float k'
  end.

Fixpoint number_countdown (retries : float) (k : nat) : list float :=
  match k with
  | O => []
  | S k' => retries :: number_countdown (retries - 1)%float k'
  end.

Fixpoint number_invocations {X : Type} (l : list (number_event X)) : nat :=
  match l with
  | [] => 0
  | NInvoke :: r => S (number_invocations r)
  | _ :: r => number_invocations r
  end.

Fixpoint number_delays {X : Type} (l : list (number_event X)) : list float :=
  match l with
  | [] => []
  | NSetTimeout ms :: r => ms :: number_delays r
  | _ :: r => number_delays r
  end.

Fixpoint number_warnings {X : Type} (l : list (number_event X)) : list float :=
  match l with
  | [] => []
  | NConsoleWarn n :: r => n :: number_warnings r
  | _ :: r => number_warnings r
  end.

(** The number that an integer literal of the source denotes (exact up to
    [2^53]). *)
Fixpoint number_of_positive (p : positive) : float :=
  match p with
  | xH => 1%float
  | xO q => (number_of_positive q * 2)%float
  | xI q => (number_of_positive q * 2 + 1)%float
  end.

Definition number_of_Z (z : Z) : float :=
  match z with
  | Z0 => 0%float
  | Zpos p => number_of_positive p
  | Zneg p => (- number_of_positive p)%float
  end.

Definition to_number_event {X : Type} (e : retry_event X) : number_event X :=
  match e with
  | Invoke => NInvoke
  | ConsoleWarn n => NConsoleWarn (number_of_Z n)
  | SetTimeout ms => NSetTimeout (number_of_Z ms)
  | Inner x => NInner x
  end.

(** ** The client with its first line

    Line 40 makes the client object before anything else is done. The
    constructor belongs to the SDK, which is not among the sources: it is
    taken as given, with the error it throws, if it throws (as it does in
    a browser when the build has no API key). *)

Section ClientWithConstructor.
Variable W : Type.
Variable newGoogleGenAI : option jsstring -> W -> option exn.
Variable read : Blob -> W -> option exn * W.
Variable generateContent :
  GenerateContentParameters -> W -> promise GenerateContentResponse * W.

Definition processAudioWithGemini_with_client (API_KEY : option jsstring)
    (audioBlob : Blob) : async W client_event json :=
  fun w =>
    match newGoogleGenAI API_KEY w with
    | Some error => (Rejected error, w, [])
    | None => processAudioWithGemini W read generateContent audioBlob w
    end.
End ClientWithConstructor.

(** A constructor that throws when there is no key. *)
Definition mock_newGoogleGenAI (API_KEY : option jsstring) (w : mock_world)
  : option exn :=
  match API_KEY with
  | Some _ => None
  | None => Some (Error (js "An API Key must be set when running in a browser"))
  end.

(** * Properties *)

(** ** The platform on small inputs *)

Example trim_strips_both_ends :
  trim ([160; 10] ++ js "{ }" ++ [32; 13; 10]) = js "{ }".
Proof. reflexivity. Qed.

Example split_on_commas :
  split 44 (js "a,b,,c") = [js "a"; js "b"; []; js "c"] /\
  split 44 [] = [[]].
Proof. split; reflexivity. Qed.

Example JSON_parse_accepts :
  JSON_parse (quoted " {'a': [1, -2.5e3, true, null], 'b': 'x\u0041\n', 'a': {}} ")
  = inr (JObject
           [(js "a",
             JArray [JNumber (js "1"); JNumber (js "-2.5e3"); JBool true; JNull]);
            (js "b", JString (js "xA" ++ [10]));
            (js "a", JObject [])]).
Proof. vm_compute. reflexivity. Qed.

Example JSON_parse_rejects :
  List.map JSON_parse
    [[]; js "[1,]"; js "{,}"; js "01"; js "1 2"; js "1."; js "-"; js "tru";
     js "[1 2]"; js "'a'"; js "```json"; [160; 123; 125]]
  = repeat (inl SyntaxError) 12.
Proof. vm_compute. reflexivity. Qed.

Example cleanText_strips_fences :
  cleanText (fence [10] [10] (js "{}")) = [10] ++ js "{}" ++ [10] /\
  cleanText (js "```" ++ [10] ++ js "[]" ++ [10] ++ js "```" ++ [10])
  = [10] ++ js "[]" ++ [10] /\
  cleanText (js " {} ") = js "{}".
Proof. repeat split; reflexivity. Qed.

(** A text that [JSON.parse] refuses as it stands (it starts with a
    no-break space) parses once [trim] has been at it, but not inside a
    fence: the two only agree on texts that are JSON. *)
Example fence_of_a_text_that_is_not_JSON :
  JSON_parse (cleanText (fence [] [] [160; 123; 125])) = inl SyntaxError /\
  JSON_parse (cleanText [160; 123; 125]) = inr (JObject []).
Proof. split; vm_compute; reflexivity. Qed.

Example base64_encode_padding :
  base64_encode [x4d; x61; x6e] = js "TWFu" /\
  base64_encode [x4d; x61] = js "TWE=" /\
  base64_encode [x4d] = js "TQ==".
Proof. repeat split; reflexivity. Qed.

Example dataURL_of_a_recording :
  dataURL recorded_blob = js "data:audio/webm;codecs=opus;base64,GkXfow==" /\
  dataURL untyped_blob = js "data:application/octet-stream;base64,GkXfow==".
Proof. split; reflexivity. Qed.

(** A whole run: the service fails once, then answers with a fenced
    text. *)
Example processAudio_run :
  let w :=
    {| readable := true;
       replies := [Rejected (Foreign (js "503"));
                   Fulfilled {| text := Some (fence [10] [10] sample_response) |}] |} in
  let req := request recorded_blob (Some (js "GkXfow==")) in
  processAudioWithGemini mock_world mock_read mock_generateContent
    recorded_blob w
  = (match JSON_parse sample_response with
     | inr v => Fulfilled v
     | inl e => Rejected e
     end,
     {| readable := true; replies := [] |},
     [Encoder (ReadAsDataURL recorded_blob);
      Retry Invoke;
      Retry (Inner (GenerateContent req));
      Retry (Inner (ConsoleError error_label (Foreign (js "503"))));
      Retry (ConsoleWarn 2);
      Retry (SetTimeout 1000);
      Retry Invoke;
      Retry (Inner (GenerateContent req));
      Retry (Inner (JSONParse ([10] ++ sample_response ++ [10])))]).
Proof. vm_compute. reflexivity. Qed.

(** ** The retry helper *)

Section RetryFacts.
Context {W X T : Type}.
Variable operation : async W X T.

Lemma retryOperation_eq (retries delay : Z) (w : W) :
  retryOperation operation retries delay w =
  match operation w with
  | (Fulfilled v, w1, l) => (Fulfilled v, w1, Invoke :: List.map Inner l)
  | (Rejected error, w1, l) =>
      if Z_gt_dec retries 0 then
        let '(r, w2, l2) :=
          retryOperation operation (retries - 1) (delay * 2) w1 in
        (r, w2,
         Invoke :: List.map Inner l
           ++ ConsoleWarn retries :: SetTimeout delay :: l2)
      else (Rejected error, w1, Invoke :: List.map Inner l)
  end.
Proof.
  simp retryOperation.
  destruct (operation w) as [[[v|e] w1] l]; cbn; [reflexivity|].
  destruct (Z_gt_dec retries 0); reflexivity.
Qed.

Lemma retry_fulfilled retries delay w v w1 l :
  operation w = (Fulfilled v, w1, l) ->
  retryOperation operation retries delay w
  = (Fulfilled v, w1, Invoke :: List.map Inner l).
Proof. intros H. rewrite retryOperation_eq, H. reflexivity. Qed.

Lemma retry_exhausted retries delay w e w1 l :
  operation w = (Rejected e, w1, l) ->
  (retries <= 0)%Z ->
  retryOperation operation retries delay w
  = (Rejected e, w1, Invoke :: List.map Inner l).
Proof.
  intros H Hn. rewrite retryOperation_eq, H.
  destruct (Z_gt_dec retries 0); [lia | reflexivity].
Qed.

Lemma retry_again retries delay w e w1 l r w2 l2 :
  operation w = (Rejected e, w1, l) ->
  (retries > 0)%Z ->
  retryOperation operation (retries - 1) (delay * 2) w1 = (r, w2, l2) ->
  retryOperation operation retries delay w
  = (r, w2,
     Invoke :: List.map Inner l
       ++ ConsoleWarn retries :: SetTimeout delay :: l2).
Proof.
  intros H Hn Hrec. rewrite retryOperation_eq, H.
  destruct (Z_gt_dec retries 0); [| lia].
  rewrite Hrec. reflexivity.
Qed.
End RetryFacts.

Lemma invocations_app {X : Type} (l1 l2 : list (retry_event X)) :
  invocations (l1 ++ l2) = (invocations l1 + invocations l2)%nat.
Proof.
  induction l1 as [|e l1 IH]; [reflexivity|].
  destruct e; cbn; rewrite ?IH; reflexivity.
Qed.

Lemma invocations_inner {X : Type} (l : list X) :
  invocations (List.map Inner l) = 0%nat.
Proof. induction l; cbn; auto. Qed.

Lemma delays_app {X : Type} (l1 l2 : list (retry_event X)) :
  delays (l1 ++ l2) = delays l1 ++ delays l2.
Proof.
  induction l1 as [|e l1 IH]; [reflexivity|].
  destruct e; cbn; rewrite ?IH; reflexivity.
Qed.

Lemma delays_inner {X : Type} (l : list X) :
  delays (List.map (@Inner X) l) = [].
Proof. induction l; cbn; auto. Qed.

(** Three failures in a row under the default budget: what the wrapper
    returns and what it did. *)
Lemma retry_default_three_failures {W X T : Type} (operation : async W X T)
    {w0 e1 w1 l1 e2 w2 l2 e3 w3 l3} :
  operation w0 = (Rejected e1, w1, l1) ->
  operation w1 = (Rejected e2, w2, l2) ->
  operation w2 = (Rejected e3, w3, l3) ->
  retryOperation_default operation w0
  = (Rejected e3, w3,
     Invoke :: List.map Inner l1 ++ ConsoleWarn 2 :: SetTimeout 1000
       :: Invoke :: List.map Inner l2 ++ ConsoleWarn 1 :: SetTimeout 2000
       :: Invoke :: List.map Inner l3).
Proof.
  intros H1 H2 H3. unfold retryOperation_default, default_retries, default_delay.
  eapply retry_again; [exact H1 | lia |].
  eapply retry_again; [exact H2 | lia |].
  apply retry_exhausted; [exact H3 | lia].
Qed.

(** C1. An operation that fails on every call is called exactly three times
    by [retryOperation] with its default budget (with the two warnings and
    the waits of 1000 and 2000 ms in between), and the promise is rejected
    with the very error of the third call. *)
Theorem retry_always_failing_three_attempts {W X T : Type}
    (operation : async W X T) (w0 : W) :
  always_fails operation ->
  exists e1 w1 l1 e2 w2 l2 e3 w3 l3,
    operation w0 = (Rejected e1, w1, l1) /\
    operation w1 = (Rejected e2, w2, l2) /\
    operation w2 = (Rejected e3, w3, l3) /\
    retryOperation_default operation w0
    = (Rejected e3, w3,
       Invoke :: List.map Inner l1 ++ ConsoleWarn 2 :: SetTimeout 1000
         :: Invoke :: List.map Inner l2 ++ ConsoleWarn 1 :: SetTimeout 2000
         :: Invoke :: List.map Inner l3) /\
    invocations (snd (retryOperation_default operation w0)) = 3%nat.
Proof.
  intros Hfail.
  destruct (Hfail w0) as (e1 & w1 & l1 & H1).
  destruct (Hfail w1) as (e2 & w2 & l2 & H2).
  destruct (Hfail w2) as (e3 & w3 & l3 & H3).
  exists e1, w1, l1, e2, w2, l2, e3, w3, l3.
  pose proof (retry_default_three_failures operation H1 H2 H3) as E.
  repeat split; try assumption.
  rewrite E. cbn.
  repeat (rewrite ?invocations_app, ?invocations_inner; cbn).
  reflexivity.
Qed.

Lemma retry_always_failing_three_attempts_witness :
  always_fails failing_operation /\
  exists e1 w1 l1 e2 w2 l2 e3 w3 l3,
    failing_operation tt = (Rejected e1, w1, l1) /\
    failing_operation w1 = (Rejected e2, w2, l2) /\
    failing_operation w2 = (Rejected e3, w3, l3) /\
    retryOperation_default failing_operation tt
    = (Rejected e3, w3,
       Invoke :: List.map Inner l1 ++ ConsoleWarn 2 :: SetTimeout 1000
         :: Invoke :: List.map Inner l2 ++ ConsoleWarn 1 :: SetTimeout 2000
         :: Invoke :: List.map Inner l3) /\
    invocations (snd (retryOperation_default failing_operation tt)) = 3%nat.
Proof.
  assert (H : always_fails failing_operation).
  { intros w. exists (Foreign (js "503")), w, [tt]. reflexivity. }
  split; [exact H | apply (retry_always_failing_three_attempts failing_operation tt H)].
Defined.

(** C2. An operation that fails on its first two calls and succeeds on the
    third: the wrapper fulfils with that result after exactly two waits, of
    1000 ms and then 2000 ms, and three calls. *)
Theorem retry_two_failures_then_success {W X T : Type}
    (operation : async W X T) (w0 w1 w2 w3 : W) (e1 e2 : exn) (v : T)
    (l1 l2 l3 : list X) :
  operation w0 = (Rejected e1, w1, l1) ->
  operation w1 = (Rejected e2, w2, l2) ->
  operation w2 = (Fulfilled v, w3, l3) ->
  retryOperation_default operation w0
  = (Fulfilled v, w3,
     Invoke :: List.map Inner l1 ++ ConsoleWarn 2 :: SetTimeout 1000
       :: Invoke :: List.map Inner l2 ++ ConsoleWarn 1 :: SetTimeout 2000
       :: Invoke :: List.map Inner l3) /\
  delays (snd (retryOperation_default operation w0)) = [1000; 2000]%Z /\
  invocations (snd (retryOperation_default operation w0)) = 3%nat.
Proof.
  intros H1 H2 H3.
  assert (E : retryOperation_default operation w0
              = (Fulfilled v, w3,
                 Invoke :: List.map Inner l1 ++ ConsoleWarn 2 :: SetTimeout 1000
                   :: Invoke :: List.map Inner l2 ++ ConsoleWarn 1
                   :: SetTimeout 2000 :: Invoke :: List.map Inner l3)).
  { unfold retryOperation_default, default_retries, default_delay.
    eapply retry_again; [exact H1 | lia |].
    eapply retry_again; [exact H2 | lia |].
    apply retry_fulfilled. exact H3. }
  rewrite E. cbn. split; [reflexivity | split].
  - repeat (rewrite ?delays_app, ?delays_inner; cbn). reflexivity.
  - repeat (rewrite ?invocations_app, ?invocations_inner; cbn). reflexivity.
Qed.

Lemma retry_two_failures_then_success_witness :
  let w0 := [Rejected (Foreign (js "503")); Rejected SyntaxError; Fulfilled 7%nat] in
  retryOperation_default scripted_operation w0
  = (Fulfilled 7%nat, [],
     [Invoke; Inner tt; ConsoleWarn 2; SetTimeout 1000;
      Invoke; Inner tt; ConsoleWarn 1; SetTimeout 2000;
      Invoke; Inner tt]) /\
  delays (snd (retryOperation_default scripted_operation w0)) = [1000; 2000]%Z /\
  invocations (snd (retryOperation_default scripted_operation w0)) = 3%nat.
Proof.
  exact (retry_two_failures_then_success scripted_operation
           [Rejected (Foreign (js "503")); Rejected SyntaxError; Fulfilled 7%nat]
           [Rejected SyntaxError; Fulfilled 7%nat] [Fulfilled 7%nat] []
           (Foreign (js "503")) SyntaxError 7%nat [tt] [tt] [tt]
           eq_refl eq_refl eq_refl).
Defined.

(** The calls of the operation never exceed the budget plus one. *)
Lemma retry_invocations_bound {W X T : Type} (operation : async W X T)
    (k : nat) :
  forall (retries delay : Z) (w : W),
    Z.to_nat retries = k ->
    (1 <= invocations (snd (retryOperation operation retries delay w))
     <= S k)%nat.
Proof.
  induction k as [|k IH]; intros retries delay w Hk;
    rewrite retryOperation_eq;
    destruct (operation w) as [[[v|e] w1] l]; cbn;
    rewrite ?invocations_inner; try lia.
  - destruct (Z_gt_dec retries 0); [lia |].
    cbn. rewrite invocations_inner. lia.
  - destruct (Z_gt_dec retries 0).
    + specialize (IH (retries - 1)%Z (delay * 2)%Z w1 ltac:(lia)).
      destruct (retryOperation operation (retries - 1) (delay * 2) w1)
        as [[r w2] l2]. cbn in *.
      rewrite invocations_app, invocations_inner. cbn. lia.
    + cbn. rewrite invocations_inner. lia.
Qed.


(** ** The client *)

Section ClientFacts.
Variable W : Type.
Variable read : Blob -> W -> option exn * W.
Variable generateContent :
  GenerateContentParameters -> W -> promise GenerateContentResponse * W.

Lemma processAudio_read_fails blob w event w1 :
  read blob w = (Some event, w1) ->
  processAudioWithGemini W read generateContent blob w
  = (Rejected event, w1,
     [Encoder (ReadAsDataURL blob); Encoder (Uncaught TypeError)]).
Proof.
  intros H. unfold processAudioWithGemini, bind, relabel, blobToBase64.
  rewrite H. reflexivity.
Qed.

Lemma processAudio_read_succeeds blob w w1 :
  read blob w = (None, w1) ->
  processAudioWithGemini W read generateContent blob w
  = let '(r, w2, l) :=
      retryOperation_default
        (attempt W generateContent blob (encoded blob)) w1 in
    (r, w2, Encoder (ReadAsDataURL blob) :: List.map Retry l).
Proof.
  intros H. unfold processAudioWithGemini, bind, relabel, blobToBase64.
  rewrite H. cbn -[dataURL retryOperation_default].
  fold (encoded blob).
  destruct (retryOperation_default _ w1) as [[r w2] l]. reflexivity.
Qed.

Lemma attempt_body_eq blob b64 w :
  attempt_body W generateContent blob b64 w
  = let req := request blob b64 in
    match generateContent req w with
    | (Rejected e, w1) => (Rejected e, w1, [GenerateContent req])
    | (Fulfilled response, w1) =>
        if ToBoolean (text response) then
          match text response with
          | Some t =>
              match JSON_parse (cleanText t) with
              | inr v =>
                  (Fulfilled v, w1,
                   [GenerateContent req; JSONParse (cleanText t)])
              | inl e =>
                  (Rejected e, w1,
                   [GenerateContent req; JSONParse (cleanText t)])
              end
          | None => (Rejected TypeError, w1, [GenerateContent req])
          end
        else (Rejected empty_response_error, w1, [GenerateContent req])
    end.
Proof.
  unfold attempt_body, bind, call_generateContent, call_JSON_parse, bind, emit.
  cbv zeta.
  destruct (generateContent (request blob b64) w) as [[response|e] w1];
    [| reflexivity].
  destruct (ToBoolean (text response)); [| reflexivity].
  destruct (text response) as [t|]; [| reflexivity].
  destruct (JSON_parse (cleanText t)); reflexivity.
Qed.

Lemma attempt_eq blob b64 w :
  attempt W generateContent blob b64 w
  = match attempt_body W generateContent blob b64 w with
    | (Fulfilled v, w1, l) => (Fulfilled v, w1, l)
    | (Rejected e, w1, l) =>
        (Rejected e, w1, l ++ [ConsoleError error_label e])
    end.
Proof.
  unfold attempt, try_catch, bind, emit, throw.
  destruct (attempt_body W generateContent blob b64 w) as [[[v|e] w1] l];
    reflexivity.
Qed.

(** C4. When the model answers without text, the attempt throws the error
    "Empty response from Gemini" (logged by the handler on its way out) and
    [JSON.parse] is not called. *)
Theorem attempt_without_text_throws_empty_response blob b64 w w1 response :
  generateContent (request blob b64) w = (Fulfilled response, w1) ->
  text response = None ->
  attempt W generateContent blob b64 w
  = (Rejected (Error (js "Empty response from Gemini")), w1,
     [GenerateContent (request blob b64);
      ConsoleError (js "Gemini API Error (Attempt failed):")
        (Error (js "Empty response from Gemini"))]) /\
  parse_calls (snd (attempt W generateContent blob b64 w)) = 0%nat.
Proof.
  intros Hg Ht.
  assert (E : attempt W generateContent blob b64 w
              = (Rejected empty_response_error, w1,
                 [GenerateContent (request blob b64);
                  ConsoleError error_label empty_response_error])).
  { rewrite attempt_eq, attempt_body_eq. cbv zeta. rewrite Hg, Ht.
    reflexivity. }
  rewrite E. split; reflexivity.
Qed.

(** Why an attempt fails: the call of the model was rejected, or the reply
    had no text, or its text did not parse. *)
Lemma attempt_failure_cases blob b64 w e w1 l :
  attempt_body W generateContent blob b64 w = (Rejected e, w1, l) ->
  generateContent (request blob b64) w = (Rejected e, w1) \/
  (exists response,
     generateContent (request blob b64) w = (Fulfilled response, w1) /\
     ToBoolean (text response) = false /\
     e = empty_response_error) \/
  (exists response t,
     generateContent (request blob b64) w = (Fulfilled response, w1) /\
     text response = Some t /\
     JSON_parse (cleanText t) = inl e).
Proof.
  rewrite attempt_body_eq. cbv zeta.
  destruct (generateContent (request blob b64) w) as [[response|e0] w0].
  - destruct (ToBoolean (text response)) eqn:Hb.
    + destruct (text response) as [t|] eqn:Ht; [| discriminate].
      destruct (JSON_parse (cleanText t)) as [e1|v] eqn:Hp; [| discriminate].
      intros H. injection H as -> -> _.
      right; right. exists response, t. auto.
    + intros H. injection H as <- -> _.
      right; left. exists response. auto.
  - intros H. injection H as -> -> _. left. reflexivity.
Qed.

(** C5. When reading the blob fails, [processAudioWithGemini] rejects with
    the error of the read at once: the model is never called, no retry is
    made, the world is as the read left it. When the read succeeds, the
    rest of the call is [retryOperation] with its default budget around the
    attempt, so the failures of the attempt are the ones that are retried;
    and an attempt fails only because the call of the model was rejected,
    because the reply had no text, or because its text did not parse. *)
Theorem encoding_failure_is_not_retried blob w :
  (forall event w1,
     read blob w = (Some event, w1) ->
     processAudioWithGemini W read generateContent blob w
     = (Rejected event, w1,
        [Encoder (ReadAsDataURL blob); Encoder (Uncaught TypeError)]) /\
     model_calls (snd (processAudioWithGemini W read generateContent blob w))
     = 0%nat /\
     retries_made (snd (processAudioWithGemini W read generateContent blob w))
     = 0%nat) /\
  (forall w1,
     read blob w = (None, w1) ->
     processAudioWithGemini W read generateContent blob w
     = let '(r, w2, l) :=
         retryOperation_default
           (attempt W generateContent blob (encoded blob)) w1 in
       (r, w2, Encoder (ReadAsDataURL blob) :: List.map Retry l)) /\
  (forall b64 wa e wb l,
     attempt W generateContent blob b64 wa = (Rejected e, wb, l) ->
     generateContent (request blob b64) wa = (Rejected e, wb) \/
     (exists response,
        generateContent (request blob b64) wa = (Fulfilled response, wb) /\
        ToBoolean (text response) = false /\
        e = Error (js "Empty response from Gemini")) \/
     (exists response t,
        generateContent (request blob b64) wa = (Fulfilled response, wb) /\
        text response = Some t /\
        JSON_parse (cleanText t) = inl e)).
Proof.
  split; [| split].
  - intros event w1 H. rewrite (processAudio_read_fails _ _ _ _ H).
    repeat split; reflexivity.
  - intros w1 H. apply processAudio_read_succeeds. exact H.
  - intros b64 wa e wb l. rewrite attempt_eq.
    destruct (attempt_body W generateContent blob b64 wa)
      as [[[v|e0] w0] l0] eqn:Hb; [discriminate |].
    intros H. injection H as -> -> _.
    apply attempt_failure_cases in Hb. exact Hb.
Qed.

(** The model calls of an attempt carry the request built from the blob. *)
Lemma attempt_requests blob b64 w req :
  In (GenerateContent req) (snd (attempt W generateContent blob b64 w)) ->
  req = request blob b64.
Proof.
  rewrite attempt_eq, attempt_body_eq. cbv zeta.
  destruct (generateContent (request blob b64) w) as [[response|e] w1].
  - destruct (ToBoolean (text response)).
    + destruct (text response) as [t|].
      * destruct (JSON_parse (cleanText t)); cbn;
          intros [H|[H|H]]; try discriminate; try contradiction;
          try (destruct H as [H|H]; [discriminate | contradiction]);
          congruence.
      * cbn. intros [H|[H|H]]; try discriminate; try contradiction; congruence.
    + cbn. intros [H|[H|H]]; try discriminate; try contradiction; congruence.
  - cbn. intros [H|[H|H]]; try discriminate; try contradiction; congruence.
Qed.
End ClientFacts.

(** The events of the operation inside a run of [retryOperation] are events
    of some call of the operation. *)
Lemma retry_inner_events {W X T : Type} (operation : async W X T) (x : X)
    (k : nat) :
  forall (retries delay : Z) (w : W),
    Z.to_nat retries = k ->
    In (Inner x) (snd (retryOperation operation retries delay w)) ->
    exists w', In x (snd (operation w')).
Proof.
  induction k as [|k IH]; intros retries delay w Hk;
    rewrite retryOperation_eq;
    destruct (operation w) as [[[v|e] w1] l] eqn:Eop; cbn.
  1, 3: intros [H|H]; [discriminate |];
    apply in_map_iff in H; destruct H as (y & Hy & Hin);
    injection Hy as ->; exists w; rewrite Eop; exact Hin.
  - destruct (Z_gt_dec retries 0); [lia |]. cbn.
    intros [H|H]; [discriminate |].
    apply in_map_iff in H; destruct H as (y & Hy & Hin).
    injection Hy as ->. exists w. rewrite Eop. exact Hin.
  - destruct (Z_gt_dec retries 0).
    + specialize (IH (retries - 1)%Z (delay * 2)%Z w1 ltac:(lia)).
      destruct (retryOperation operation (retries - 1) (delay * 2) w1)
        as [[r w2] l2]. cbn in *.
      intros [H|H]; [discriminate |].
      apply in_app_or in H. destruct H as [H|[H|[H|H]]];
        try discriminate.
      * apply in_map_iff in H; destruct H as (y & Hy & Hin).
        injection Hy as ->. exists w. rewrite Eop. exact Hin.
      * apply IH. exact H.
    + cbn. intros [H|H]; [discriminate |].
      apply in_map_iff in H; destruct H as (y & Hy & Hin).
      injection Hy as ->. exists w. rewrite Eop. exact Hin.
Qed.

(** C7. Every request that [processAudioWithGemini] sends to the model
    carries the MIME type [audio/webm] when the blob has none (an empty
    [type]), and the blob's own type, unchanged, otherwise. *)
Theorem request_carries_blob_type_or_webm (W : Type)
    (read : Blob -> W -> option exn * W)
    (generateContent :
       GenerateContentParameters -> W -> promise GenerateContentResponse * W)
    (blob : Blob) (w : W) (req : GenerateContentParameters) :
  In (Retry (Inner (GenerateContent req)))
     (snd (processAudioWithGemini W read generateContent blob w)) ->
  (type blob = [] -> request_mimeType req = Some (js "audio/webm")) /\
  (type blob <> [] -> request_mimeType req = Some (type blob)).
Proof.
  intros Hin.
  assert (Hreq : exists b64, req = request blob b64).
  { destruct (read blob w) as [[event|] w1] eqn:Hr.
    - rewrite (processAudio_read_fails W read generateContent _ _ _ _ Hr) in Hin.
      cbn in Hin. destruct Hin as [H|[H|[]]]; discriminate.
    - rewrite (processAudio_read_succeeds W read generateContent _ _ _ Hr) in Hin.
      destruct (retryOperation_default _ w1) as [[r w2] l] eqn:Er.
      cbn in Hin. destruct Hin as [H|H]; [discriminate |].
      apply in_map_iff in H. destruct H as (y & Hy & Hin).
      injection Hy as ->.
      assert (Hl : l = snd (retryOperation_default
                              (attempt W generateContent blob (encoded blob)) w1))
        by (rewrite Er; reflexivity).
      rewrite Hl in Hin.
      apply (retry_inner_events _ _ (Z.to_nat default_retries) _ _ _ eq_refl)
        in Hin.
      destruct Hin as (w' & Hin).
      exists (encoded blob). eapply attempt_requests. exact Hin. }
  destruct Hreq as (b64 & ->). unfold request_mimeType. cbn.
  split; intros Ht.
  - rewrite Ht. reflexivity.
  - destruct (type blob); [contradiction | reflexivity].
Qed.

Lemma request_carries_blob_type_or_webm_witness :
  let w := {| readable := true; replies := [] |} in
  (In (Retry (Inner (GenerateContent (request untyped_blob (encoded untyped_blob)))))
      (snd (processAudioWithGemini mock_world mock_read mock_generateContent
              untyped_blob w)) /\
   type untyped_blob = [] /\
   request_mimeType (request untyped_blob (encoded untyped_blob))
   = Some (js "audio/webm")) /\
  (In (Retry (Inner (GenerateContent (request recorded_blob (encoded recorded_blob)))))
      (snd (processAudioWithGemini mock_world mock_read mock_generateContent
              recorded_blob w)) /\
   type recorded_blob <> [] /\
   request_mimeType (request recorded_blob (encoded recorded_blob))
   = Some (js "audio/webm;codecs=opus")).
Proof.
  intros w.
  assert (H1 : In (Retry (Inner (GenerateContent
                     (request untyped_blob (encoded untyped_blob)))))
                 (snd (processAudioWithGemini mock_world mock_read
                         mock_generateContent untyped_blob w)))
    by (vm_compute; tauto).
  assert (H2 : In (Retry (Inner (GenerateContent
                     (request recorded_blob (encoded recorded_blob)))))
                 (snd (processAudioWithGemini mock_world mock_read
                         mock_generateContent recorded_blob w)))
    by (vm_compute; tauto).
  assert (T1 : type untyped_blob = []) by reflexivity.
  assert (T2 : type recorded_blob <> []) by discriminate.
  split; (split; [assumption | split; [assumption |]]).
  - exact (proj1 (request_carries_blob_type_or_webm _ _ _ _ _ _ H1) T1).
  - exact (proj2 (request_carries_blob_type_or_webm _ _ _ _ _ _ H2) T2).
Defined.

(** A rejection by [retryOperation] is the rejection of its last call of
    the operation, with the same reason and the world that call left. *)
Lemma retry_rejected_last {W X T : Type} (operation : async W X T) (k : nat) :
  forall (retries delay : Z) (w : W) (e : exn) (w2 : W)
         (l : list (retry_event X)),
    Z.to_nat retries = k ->
    retryOperation operation retries delay w = (Rejected e, w2, l) ->
    exists wa la l0,
      operation wa = (Rejected e, w2, la) /\
      l = l0 ++ Invoke :: List.map Inner la.
Proof.
  induction k as [|k IH]; intros retries delay w e w2 l Hk;
    rewrite retryOperation_eq;
    destruct (operation w) as [[[v|e0] w1] l1] eqn:Eop;
    try discriminate.
  - destruct (Z_gt_dec retries 0); [lia |].
    intros H. injection H as -> -> <-.
    exists w, l1, []. split; [exact Eop | reflexivity].
  - destruct (Z_gt_dec retries 0).
    + destruct (retryOperation operation (retries - 1) (delay * 2) w1)
        as [[r w3] l2] eqn:Erec.
      intros H. injection H as -> -> <-.
      destruct (IH (retries - 1)%Z (delay * 2)%Z w1 _ _ _ ltac:(lia) Erec)
        as (wa & la & l0 & Ha & ->).
      exists wa, la,
        (Invoke :: List.map Inner l1
           ++ ConsoleWarn retries :: SetTimeout delay :: l0).
      split; [exact Ha |].
      cbn. rewrite <- app_assoc. reflexivity.
    + intros H. injection H as -> -> <-.
      exists w, l1, []. split; [exact Eop | reflexivity].
Qed.

(** C8. An attempt that fails has logged its error with [console.error] as
    its last act and throws the very value that its [try] block threw; and
    the reason with which [processAudioWithGemini] rejects, after a read
    that succeeded, is the value thrown in the [try] block of the last
    attempt, whose log entry ends the run. *)
Theorem failed_attempt_is_logged_and_surfaced_unchanged (W : Type)
    (read : Blob -> W -> option exn * W)
    (generateContent :
       GenerateContentParameters -> W -> promise GenerateContentResponse * W)
    (blob : Blob) :
  (forall b64 w e w1 l,
     attempt W generateContent blob b64 w = (Rejected e, w1, l) ->
     exists l0,
       attempt_body W generateContent blob b64 w = (Rejected e, w1, l0) /\
       l = l0 ++ [ConsoleError (js "Gemini API Error (Attempt failed):") e]) /\
  (forall w w1 e w2 l,
     read blob w = (None, w1) ->
     processAudioWithGemini W read generateContent blob w
     = (Rejected e, w2, l) ->
     exists wa la l0,
       attempt_body W generateContent blob (encoded blob) wa
       = (Rejected e, w2, la) /\
       l = l0 ++ List.map Retry
                   (Invoke :: List.map Inner
                      (la ++ [ConsoleError
                                (js "Gemini API Error (Attempt failed):") e]))).
Proof.
  assert (Hattempt : forall b64 w e w1 l,
             attempt W generateContent blob b64 w = (Rejected e, w1, l) ->
             exists l0,
               attempt_body W generateContent blob b64 w = (Rejected e, w1, l0) /\
               l = l0 ++ [ConsoleError error_label e]).
  { intros b64 w e w1 l. rewrite attempt_eq.
    destruct (attempt_body W generateContent blob b64 w) as [[[v|e0] w0] l0];
      [discriminate |].
    intros H. injection H as -> -> <-. exists l0. split; reflexivity. }
  split; [exact Hattempt |].
  intros w w1 e w2 l Hr.
  rewrite (processAudio_read_succeeds W read generateContent _ _ _ Hr).
  destruct (retryOperation_default _ w1) as [[r w3] lr] eqn:Er.
  intros H. injection H as -> -> <-.
  apply (retry_rejected_last _ (Z.to_nat default_retries) _ _ _ _ _ _ eq_refl)
    in Er.
  destruct Er as (wa & la & l0 & Ha & ->).
  destruct (Hattempt _ _ _ _ _ Ha) as (lb & Hb & ->).
  exists wa, lb, (Encoder (ReadAsDataURL blob) :: List.map Retry l0).
  split; [exact Hb |].
  cbn. rewrite map_app. reflexivity.
Qed.

Lemma failed_attempt_is_logged_and_surfaced_unchanged_witness :
  let w :=
    {| readable := true;
       replies := [Rejected (Foreign (js "503"));
                   Fulfilled {| text := Some (js "not json") |};
                   Fulfilled {| text := None |}] |} in
  let w2 := {| readable := true; replies := [] |} in
  let run :=
    processAudioWithGemini mock_world mock_read mock_generateContent
      recorded_blob w in
  mock_read recorded_blob w = (None, w) /\
  run = (Rejected empty_response_error, w2, snd run) /\
  exists wa la l0,
    attempt_body mock_world mock_generateContent recorded_blob
      (encoded recorded_blob) wa
    = (Rejected empty_response_error, w2, la) /\
    snd run
    = l0 ++ List.map Retry
              (Invoke :: List.map Inner
                 (la ++ [ConsoleError (js "Gemini API Error (Attempt failed):")
                           empty_response_error])).
Proof.
  intros w w2 run.
  assert (Hr : mock_read recorded_blob w = (None, w)) by reflexivity.
  assert (Hp : run = (Rejected empty_response_error, w2, snd run))
    by (vm_compute; reflexivity).
  split; [exact Hr | split; [exact Hp |]].
  exact (proj2 (failed_attempt_is_logged_and_surfaced_unchanged
                  mock_world mock_read mock_generateContent recorded_blob)
           _ _ _ _ _ Hr Hp).
Defined.

Lemma attempt_without_text_throws_empty_response_witness :
  let w := {| readable := true; replies := [Fulfilled {| text := None |}] |} in
  let w1 := {| readable := true; replies := [] |} in
  mock_generateContent (request recorded_blob (encoded recorded_blob)) w
  = (Fulfilled {| text := None |}, w1) /\
  attempt mock_world mock_generateContent recorded_blob
    (encoded recorded_blob) w
  = (Rejected (Error (js "Empty response from Gemini")), w1,
     [GenerateContent (request recorded_blob (encoded recorded_blob));
      ConsoleError (js "Gemini API Error (Attempt failed):")
        (Error (js "Empty response from Gemini"))]) /\
  parse_calls
    (snd (attempt mock_world mock_generateContent recorded_blob
            (encoded recorded_blob) w)) = 0%nat.
Proof.
  intros w w1.
  assert (H : mock_generateContent
                (request recorded_blob (encoded recorded_blob)) w
              = (Fulfilled {| text := None |}, w1)) by reflexivity.
  split; [exact H |].
  exact (attempt_without_text_throws_empty_response mock_world
           mock_generateContent recorded_blob (encoded recorded_blob) w w1
           {| text := None |} H eq_refl).
Defined.

Lemma encoding_failure_is_not_retried_witness :
  let w :=
    {| readable := false;
       replies := [Fulfilled {| text := Some (js "{}") |}] |} in
  mock_read recorded_blob w = (Some (Foreign (js "NotReadableError")), w) /\
  processAudioWithGemini mock_world mock_read mock_generateContent
    recorded_blob w
  = (Rejected (Foreign (js "NotReadableError")), w,
     [Encoder (ReadAsDataURL recorded_blob); Encoder (Uncaught TypeError)]) /\
  model_calls
    (snd (processAudioWithGemini mock_world mock_read mock_generateContent
            recorded_blob w)) = 0%nat /\
  retries_made
    (snd (processAudioWithGemini mock_world mock_read mock_generateContent
            recorded_blob w)) = 0%nat.
Proof.
  intros w.
  assert (H : mock_read recorded_blob w
              = (Some (Foreign (js "NotReadableError")), w)) by reflexivity.
  split; [exact H |].
  exact (proj1 (encoding_failure_is_not_retried mock_world mock_read
                  mock_generateContent recorded_blob w) _ _ H).
Defined.

(** C10. A reply whose text is the empty string is treated exactly as a
    reply without text: [ToBoolean] is false for both, so the attempt
    throws the error "Empty response from Gemini" and does not call
    [JSON.parse]. *)
Theorem empty_string_text_is_treated_as_missing (W : Type)
    (generateContent generateContent' :
       GenerateContentParameters -> W -> promise GenerateContentResponse * W)
    (blob : Blob) (b64 : option jsstring) (w w1 : W) :
  generateContent (request blob b64) w
  = (Fulfilled {| text := Some [] |}, w1) ->
  generateContent' (request blob b64) w
  = (Fulfilled {| text := None |}, w1) ->
  ToBoolean (Some []) = ToBoolean None /\
  attempt W generateContent blob b64 w
  = attempt W generateContent' blob b64 w /\
  attempt W generateContent blob b64 w
  = (Rejected (Error (js "Empty response from Gemini")), w1,
     [GenerateContent (request blob b64);
      ConsoleError (js "Gemini API Error (Attempt failed):")
        (Error (js "Empty response from Gemini"))]) /\
  parse_calls (snd (attempt W generateContent blob b64 w)) = 0%nat.
Proof.
  intros Hg Hg'.
  assert (E : attempt W generateContent blob b64 w
              = (Rejected empty_response_error, w1,
                 [GenerateContent (request blob b64);
                  ConsoleError error_label empty_response_error])).
  { rewrite attempt_eq, attempt_body_eq. cbv zeta. rewrite Hg. reflexivity. }
  assert (E' : attempt W generateContent' blob b64 w
               = (Rejected empty_response_error, w1,
                  [GenerateContent (request blob b64);
                   ConsoleError error_label empty_response_error])).
  { rewrite attempt_eq, attempt_body_eq. cbv zeta. rewrite Hg'. reflexivity. }
  rewrite E, E'. repeat split; reflexivity.
Qed.

Lemma empty_string_text_is_treated_as_missing_witness :
  let w := {| readable := true; replies := [] |} in
  let req := request recorded_blob (encoded recorded_blob) in
  answer_empty_string req w = (Fulfilled {| text := Some [] |}, w) /\
  answer_no_text req w = (Fulfilled {| text := None |}, w) /\
  attempt mock_world answer_empty_string recorded_blob (encoded recorded_blob) w
  = attempt mock_world answer_no_text recorded_blob (encoded recorded_blob) w /\
  attempt mock_world answer_empty_string recorded_blob (encoded recorded_blob) w
  = (Rejected (Error (js "Empty response from Gemini")), w,
     [GenerateContent req;
      ConsoleError (js "Gemini API Error (Attempt failed):")
        (Error (js "Empty response from Gemini"))]) /\
  parse_calls
    (snd (attempt mock_world answer_empty_string recorded_blob
            (encoded recorded_blob) w)) = 0%nat.
Proof.
  intros w req.
  assert (H1 : answer_empty_string req w
               = (Fulfilled {| text := Some [] |}, w)) by reflexivity.
  assert (H2 : answer_no_text req w = (Fulfilled {| text := None |}, w))
    by reflexivity.
  split; [exact H1 | split; [exact H2 |]].
  exact (proj2 (empty_string_text_is_treated_as_missing mock_world
                  answer_empty_string answer_no_text recorded_blob
                  (encoded recorded_blob) w w H1 H2)).
Defined.

(** ** The lexer and white space *)

Ltac chars :=
  unfold is_white_space, is_json_ws, is_digit, is_exp_mark in *;
  rewrite ?orb_true_iff, ?andb_true_iff, ?orb_false_iff, ?andb_false_iff,
    ?N.eqb_eq, ?N.eqb_neq, ?N.leb_le, ?N.leb_gt, ?N.ltb_lt, ?N.ltb_ge in *;
  lia.

Ltac split_ifs :=
  repeat match goal with
    | |- context [if ?b then _ else _] => destruct b eqn:?
    end.

Lemma lex_error_absorbing (s : jsstring) (toks : list token) :
  fold_left lex_step s (toks, LError) = (toks, LError).
Proof. induction s as [|c s IH]; [reflexivity | exact IH]. Qed.

Lemma lex_start_json_ws (toks : list token) (c : N) :
  is_json_ws c = true -> lex_start toks c = (toks, LBetween).
Proof. intros H. unfold lex_start. rewrite H. reflexivity. Qed.

Lemma lex_start_white_space (toks : list token) (c : N) :
  is_white_space c = true ->
  lex_start toks c = (toks, if is_json_ws c then LBetween else LError).
Proof.
  intros H. unfold lex_start.
  destruct (is_json_ws c) eqn:Hj; [reflexivity |].
  split_ifs; try reflexivity; exfalso; chars.
Qed.

Lemma lex_start_ok (toks : list token) (c : N) : lexer_ok (lex_start toks c).
Proof. unfold lex_start. split_ifs; exact I || reflexivity. Qed.

Lemma lex_step_ok (st : lexer) (c : N) :
  lexer_ok st -> lexer_ok (lex_step st c).
Proof.
  destruct st as [toks q]. destruct q as [|acc|acc|acc todo v|tok rest|ph acc|];
    cbn [lex_step]; intros Hok.
  - apply lex_start_ok.
  - split_ifs; exact I.
  - unfold lex_escape. split_ifs; exact I.
  - destruct (hex_value c); [destruct todo as [|[|k]] |]; exact I.
  - destruct rest as [|x [|y r]]; split_ifs; try exact I.
    unfold lexer_ok in *. cbn in *.
    apply andb_true_iff in Hok. tauto.
  - unfold lex_number. destruct ph; split_ifs;
      try exact I; apply lex_start_ok.
  - exact I.
Qed.

Lemma lex_fold_ok (s : jsstring) (st : lexer) :
  lexer_ok st -> lexer_ok (fold_left lex_step s st).
Proof.
  revert st. induction s as [|c s IH]; intros st H; [exact H |].
  cbn. apply IH, lex_step_ok, H.
Qed.

(** A white space character after which the text is complete was not
    needed: the text was complete before it. *)
Lemma lex_finish_before_white_space (st : lexer) (c : N) (ts : list token) :
  lexer_ok st ->
  is_white_space c = true ->
  lex_finish (lex_step st c) = Some ts ->
  lex_finish st = Some ts.
Proof.
  destruct st as [toks q]. destruct q as [|acc|acc|acc todo v|tok rest|ph acc|];
    cbn [lex_step]; intros Hok Hc.
  - rewrite (lex_start_white_space _ _ Hc).
    destruct (is_json_ws c); [trivial | discriminate].
  - split_ifs; try discriminate. exfalso; chars.
  - unfold lex_escape. split_ifs; discriminate.
  - destruct (hex_value c); [destruct todo as [|[|k]] |]; discriminate.
  - destruct rest as [|x [|y r]]; split_ifs; try discriminate.
    exfalso. unfold lexer_ok in Hok. cbn in Hok.
    rewrite andb_true_r in Hok. apply negb_true_iff in Hok.
    match goal with H : (c =? x) = true |- _ => apply N.eqb_eq in H; subst x end.
    congruence.
  - unfold lex_number. rewrite (lex_start_white_space _ _ Hc).
    destruct ph; split_ifs; cbn; try discriminate; trivial;
      exfalso; chars.
  - discriminate.
Qed.

(** JSON white space after a complete text leaves it complete, with the
    same tokens. *)
Lemma lex_finish_after_json_ws (st : lexer) (c : N) (ts : list token) :
  is_json_ws c = true ->
  lex_finish st = Some ts ->
  lex_finish (lex_step st c) = Some ts.
Proof.
  destruct st as [toks q]. destruct q as [|acc|acc|acc todo v|tok rest|ph acc|];
    cbn [lex_step lex_finish]; intros Hc; try discriminate.
  - rewrite (lex_start_json_ws _ _ Hc). trivial.
  - unfold lex_number. rewrite (lex_start_json_ws _ _ Hc).
    destruct ph; cbn; try discriminate; split_ifs; trivial; exfalso; chars.
Qed.

Lemma tokenize_trimStart (s : jsstring) (ts : list token) :
  tokenize s = Some ts -> tokenize (trimStart s) = Some ts.
Proof.
  induction s as [|c s IH]; [trivial |].
  cbn [trimStart]. destruct (is_white_space c) eqn:Hc; [| trivial].
  unfold tokenize at 1. cbn [fold_left lex_step].
  rewrite (lex_start_white_space _ _ Hc).
  destruct (is_json_ws c).
  - exact IH.
  - rewrite lex_error_absorbing. discriminate.
Qed.

Lemma tokenize_rev_trimStart (l : jsstring) (ts : list token) :
  tokenize (rev l) = Some ts -> tokenize (rev (trimStart l)) = Some ts.
Proof.
  induction l as [|c l IH]; [trivial |].
  cbn [trimStart]. destruct (is_white_space c) eqn:Hc; [| trivial].
  intros H. apply IH. revert H.
  unfold tokenize. cbn [rev]. rewrite fold_left_app. cbn [fold_left].
  apply lex_finish_before_white_space; [| exact Hc].
  apply lex_fold_ok. exact I.
Qed.

Lemma tokenize_trim (s : jsstring) (ts : list token) :
  tokenize s = Some ts -> tokenize (trim s) = Some ts.
Proof.
  intros H. unfold trim, trimEnd.
  apply tokenize_rev_trimStart. rewrite rev_involutive.
  apply tokenize_trimStart. exact H.
Qed.

Lemma tokenize_json_ws_before (pre s : jsstring) :
  forallb is_json_ws pre = true ->
  tokenize (pre ++ s) = tokenize s.
Proof.
  induction pre as [|c pre IH]; [reflexivity |].
  cbn [forallb]. intros H. apply andb_true_iff in H. destruct H as [Hc Hp].
  rewrite <- (IH Hp). unfold tokenize. cbn [app fold_left lex_step].
  rewrite (lex_start_json_ws _ _ Hc). reflexivity.
Qed.

Lemma lex_finish_json_ws_after (post : jsstring) :
  forallb is_json_ws post = true ->
  forall (st : lexer) (ts : list token),
    lex_finish st = Some ts ->
    lex_finish (fold_left lex_step post st) = Some ts.
Proof.
  induction post as [|c post IH]; [trivial |].
  cbn [forallb]. intros H st ts Hst.
  apply andb_true_iff in H. destruct H as [Hc Hp].
  cbn [fold_left]. apply (IH Hp). apply lex_finish_after_json_ws; assumption.
Qed.

Lemma tokenize_json_ws_around (pre post s : jsstring) (ts : list token) :
  forallb is_json_ws pre = true ->
  forallb is_json_ws post = true ->
  tokenize s = Some ts ->
  tokenize (pre ++ s ++ post) = Some ts.
Proof.
  intros Hpre Hpost H. rewrite (tokenize_json_ws_before _ _ Hpre).
  unfold tokenize. rewrite fold_left_app.
  apply lex_finish_json_ws_after; assumption.
Qed.

Lemma JSON_parse_tokens (s : jsstring) (v : json) :
  JSON_parse s = inr v ->
  exists ts, tokenize s = Some ts /\ parse_tokens ts = Some v.
Proof.
  unfold JSON_parse. destruct (tokenize s) as [ts|]; [| discriminate].
  destruct (parse_tokens ts) as [v'|] eqn:Hp; [| discriminate].
  intros H. injection H as ->. exists ts. split; [reflexivity | exact Hp].
Qed.

Lemma JSON_parse_same_tokens (s s' : jsstring) (ts : list token) :
  tokenize s = Some ts -> tokenize s' = Some ts ->
  JSON_parse s' = JSON_parse s.
Proof. intros H H'. unfold JSON_parse. rewrite H, H'. reflexivity. Qed.

(** ** Cleaning the text of the reply *)

Lemma startsWith_app (p s : jsstring) : startsWith (p ++ s) p = true.
Proof.
  induction p as [|a p IH]; [reflexivity |].
  cbn. rewrite N.eqb_refl. exact IH.
Qed.

Lemma replace_at_start_app (p s : jsstring) : replace_at_start p (p ++ s) = s.
Proof.
  unfold replace_at_start. rewrite startsWith_app.
  induction p as [|a p IH]; [reflexivity | exact IH].
Qed.

Lemma replace_at_end_app (p s : jsstring) : replace_at_end p (s ++ p) = s.
Proof.
  unfold replace_at_end, endsWith. rewrite rev_app_distr, startsWith_app.
  rewrite length_app, Nat.add_sub. rewrite firstn_app, Nat.sub_diag, firstn_all.
  cbn. apply app_nil_r.
Qed.

Lemma startsWith_head (s p : jsstring) (a : N) :
  startsWith s (a :: p) = true -> exists r, s = a :: r.
Proof.
  destruct s as [|b s]; cbn; [discriminate |].
  intros H. apply andb_true_iff in H. destruct H as [H _].
  apply N.eqb_eq in H. subst b. exists s. reflexivity.
Qed.

(** A text that starts with a backquote is not JSON. *)
Lemma tokenize_backquote (r : jsstring) : tokenize (96 :: r) = None.
Proof.
  unfold tokenize. cbn [fold_left]. 
  change (lex_step ([], LBetween) 96) with (@nil token, LError).
  rewrite lex_error_absorbing. reflexivity.
Qed.

Lemma trimStart_white_space (o s : jsstring) :
  forallb is_white_space o = true -> trimStart (o ++ s) = trimStart s.
Proof.
  induction o as [|c o IH]; [reflexivity |].
  cbn [forallb app trimStart]. intros H. apply andb_true_iff in H.
  destruct H as [Hc Ho]. rewrite Hc. exact (IH Ho).
Qed.

Lemma forallb_rev {A : Type} (f : A -> bool) (l : list A) :
  forallb f l = true -> forallb f (rev l) = true.
Proof.
  rewrite !forallb_forall. intros H x Hx. apply H, in_rev, Hx.
Qed.

(** [trim] takes the white space around a fenced text away and stops at
    the backquotes. *)
Lemma trim_around_fence (before after s : jsstring) :
  forallb is_white_space before = true ->
  forallb is_white_space after = true ->
  trim (before ++ (js "```json" ++ s ++ js "```") ++ after)
  = js "```json" ++ s ++ js "```".
Proof.
  intros Hb Ha. unfold trim, trimEnd.
  rewrite (trimStart_white_space _ _ Hb).
  change (trimStart ((js "```json" ++ s ++ js "```") ++ after))
    with ((js "```json" ++ s ++ js "```") ++ after).
  rewrite rev_app_distr, (trimStart_white_space _ _ (forallb_rev _ _ Ha)).
  rewrite !rev_app_distr.
  change (trimStart ((rev (js "```") ++ rev s) ++ rev (js "```json")))
    with ((rev (js "```") ++ rev s) ++ rev (js "```json")).
  rewrite <- !rev_app_distr, rev_involutive. reflexivity.
Qed.

Lemma cleanText_fence (before after pre post t : jsstring) :
  forallb is_white_space before = true ->
  forallb is_white_space after = true ->
  cleanText (before ++ fence pre post t ++ after) = pre ++ t ++ post.
Proof.
  intros Hb Ha. unfold cleanText, fence.
  replace (js "```json" ++ pre ++ t ++ post ++ js "```")
    with (js "```json" ++ (pre ++ t ++ post) ++ js "```")
    by (rewrite <- !app_assoc; reflexivity).
  rewrite (trim_around_fence _ _ _ Hb Ha). cbv zeta. rewrite startsWith_app.
  rewrite replace_at_start_app, replace_at_end_app. reflexivity.
Qed.

Lemma cleanText_of_JSON (t : jsstring) (ts : list token) :
  tokenize t = Some ts -> cleanText t = trim t.
Proof.
  intros H. apply tokenize_trim in H. unfold cleanText. cbv zeta.
  destruct (startsWith (trim t) (js "```json")) eqn:H1.
  { apply startsWith_head in H1. destruct H1 as (r & Hr).
    rewrite Hr, tokenize_backquote in H. discriminate. }
  destruct (startsWith (trim t) (js "```")) eqn:H2.
  { apply startsWith_head in H2. destruct H2 as (r & Hr).
    rewrite Hr, tokenize_backquote in H. discriminate. }
  reflexivity.
Qed.

(** Cleaning does not change what a text that is JSON parses to. *)
Lemma JSON_parse_cleanText (t : jsstring) (v : json) :
  JSON_parse t = inr v -> JSON_parse (cleanText t) = inr v.
Proof.
  intros H. destruct (JSON_parse_tokens _ _ H) as (ts & Ht & Hp).
  rewrite (cleanText_of_JSON _ _ Ht).
  rewrite (JSON_parse_same_tokens t (trim t) ts Ht (tokenize_trim _ _ Ht)).
  exact H.
Qed.

(** C3. For a well-formed ExpenseResponse text [t], cleaning and parsing
    the text inside a [json] code fence gives the same value as cleaning
    and parsing [t] itself: the value [v] that [t] denotes, of the shape of
    an ExpenseResponse. The fence may have JSON white space (line feeds, as
    a rule) between its markers and the text, and white space around
    it. *)
Theorem fenced_response_parses_as_unfenced
    (before after pre post t : jsstring) :
  forallb is_white_space before = true ->
  forallb is_white_space after = true ->
  forallb is_json_ws pre = true ->
  forallb is_json_ws post = true ->
  well_formed_ExpenseResponse t ->
  exists v,
    JSON_parse t = inr v /\
    conforms responseSchema v = true /\
    JSON_parse (cleanText (before ++ fence pre post t ++ after)) = inr v /\
    JSON_parse (cleanText t) = inr v.
Proof.
  intros Hb Ha Hpre Hpost (v & Hv & Hc).
  exists v. split; [exact Hv | split; [exact Hc | split]].
  - rewrite (cleanText_fence _ _ _ _ _ Hb Ha).
    destruct (JSON_parse_tokens _ _ Hv) as (ts & Ht & Hp).
    rewrite (JSON_parse_same_tokens t (pre ++ t ++ post) ts Ht
               (tokenize_json_ws_around _ _ _ _ Hpre Hpost Ht)).
    exact Hv.
  - exact (JSON_parse_cleanText _ _ Hv).
Qed.

Lemma fenced_response_parses_as_unfenced_witness :
  forallb is_white_space [] = true /\
  forallb is_white_space [10] = true /\
  forallb is_json_ws [10] = true /\
  forallb is_json_ws [10] = true /\
  well_formed_ExpenseResponse sample_response /\
  exists v,
    JSON_parse sample_response = inr v /\
    conforms responseSchema v = true /\
    JSON_parse (cleanText ([] ++ fence [10] [10] sample_response ++ [10]))
    = inr v /\
    JSON_parse (cleanText sample_response) = inr v.
Proof.
  assert (Hw : well_formed_ExpenseResponse sample_response).
  { eexists. split; vm_compute; reflexivity. }
  repeat (split; [reflexivity |]). split; [exact Hw |].
  exact (fenced_response_parses_as_unfenced [] [10] [10] [10] sample_response
           eq_refl eq_refl eq_refl eq_refl Hw).
Defined.

(** ** The encoder *)

Lemma base64_index_char (i : N) : i < 64 -> base64_index (base64_char i) = Some i.
Proof.
  intros Hi. unfold base64_index, base64_char.
  destruct (i <? 26) eqn:H1; [| destruct (i <? 52) eqn:H2;
    [| destruct (i <? 62) eqn:H3; [| destruct (i =? 62) eqn:H4]]];
  split_ifs; try (f_equal; chars); try (exfalso; chars).
Qed.

Lemma base64_char_not_pad (i : N) : (base64_char i =? base64_pad) = false.
Proof.
  unfold base64_char, base64_pad. apply N.eqb_neq. split_ifs; chars.
Qed.

Lemma base64_char_not_comma (i : N) : (base64_char i =? 44) = false.
Proof.
  unfold base64_char. apply N.eqb_neq. split_ifs; chars.
Qed.

Lemma list_ind3 {A : Type} (P : list A -> Prop) :
  P [] -> (forall a, P [a]) -> (forall a b, P [a; b]) ->
  (forall a b c r, P r -> P (a :: b :: c :: r)) ->
  forall l, P l.
Proof.
  intros H0 H1 H2 H3.
  fix IH 1.
  intros [|a [|b [|c r]]]; [exact H0 | apply H1 | apply H2 | apply H3, IH].
Qed.

(** Euclidean division of [x] by the constant [k]: quotient and remainder
    become variables, with the two facts that [lia] needs. *)
Ltac euclid x k :=
  let q := fresh "q" in
  let r := fresh "r" in
  pose proof (N.div_mod' x k);
  pose proof (N.mod_upper_bound x k ltac:(discriminate));
  set (q := x / k) in *; set (r := x mod k) in *; clearbody q r.

(** The four sextets of three bytes, and the bytes back from them. *)
Lemma sextets_bounds (a b c : N) :
  a <= 255 -> b <= 255 -> c <= 255 ->
  a / 4 < 64 /\ a mod 4 * 16 + b / 16 < 64 /\
  b mod 16 * 4 + c / 64 < 64 /\ c mod 64 < 64.
Proof.
  intros. euclid a 4. euclid b 16. euclid c 64. lia.
Qed.

Lemma sextets_first (a b : N) :
  b <= 255 -> a / 4 * 4 + (a mod 4 * 16 + b / 16) / 16 = a.
Proof.
  intros. euclid (a mod 4 * 16 + b / 16) 16. euclid a 4. euclid b 16. lia.
Qed.

Lemma sextets_second (a b c : N) :
  b <= 255 -> c <= 255 ->
  (a mod 4 * 16 + b / 16) mod 16 * 16 + (b mod 16 * 4 + c / 64) / 4 = b.
Proof.
  intros. euclid (a mod 4 * 16 + b / 16) 16. euclid (b mod 16 * 4 + c / 64) 4.
  euclid a 4. euclid b 16. euclid c 64. lia.
Qed.

Lemma sextets_third (b c : N) :
  c <= 255 -> (b mod 16 * 4 + c / 64) mod 4 * 64 + c mod 64 = c.
Proof.
  intros. euclid (b mod 16 * 4 + c / 64) 4. euclid b 16. euclid c 64. lia.
Qed.

Lemma sextets_single (a : N) :
  a <= 255 ->
  a mod 4 * 16 < 64 /\ a / 4 * 4 + a mod 4 * 16 / 16 = a /\
  (a mod 4 * 16) mod 16 = 0.
Proof.
  intros. euclid (a mod 4 * 16) 16. euclid a 4. lia.
Qed.

Lemma sextets_pair (a b : N) :
  b <= 255 ->
  b mod 16 * 4 < 64 /\
  (a mod 4 * 16 + b / 16) mod 16 * 16 + b mod 16 * 4 / 4 = b /\
  (b mod 16 * 4) mod 4 = 0.
Proof.
  intros. euclid (a mod 4 * 16 + b / 16) 16. euclid (b mod 16 * 4) 4.
  euclid a 4. euclid b 16. lia.
Qed.

(** The encoder writes valid base64: decoding gives the bytes back. *)
Lemma base64_decode_encode (bs : list byte) :
  base64_decode (base64_encode bs) = Some bs.
Proof.
  induction bs as [|a|a b|a b c r IH] using list_ind3.
  - reflexivity.
  - cbn [base64_encode]. cbv zeta.
    pose proof (Byte.to_N_bounded a) as Ha.
    destruct (sextets_bounds _ 0 0 Ha ltac:(lia) ltac:(lia)) as (B1 & _).
    destruct (sextets_single _ Ha) as (B2 & E1 & E2).
    cbn [base64_decode].
    rewrite (base64_index_char _ B1), (base64_index_char _ B2).
    rewrite E1, E2. unfold byte_of. rewrite Byte.of_to_N.
    reflexivity.
  - cbn [base64_encode]. cbv zeta.
    pose proof (Byte.to_N_bounded a) as Ha.
    pose proof (Byte.to_N_bounded b) as Hb.
    destruct (sextets_bounds _ _ 0 Ha Hb ltac:(lia)) as (B1 & B2 & _).
    destruct (sextets_pair (Byte.to_N a) _ Hb) as (B3 & E2 & E3).
    cbn [base64_decode].
    rewrite (base64_index_char _ B1), (base64_index_char _ B2).
    rewrite (sextets_first _ _ Hb). unfold byte_of. rewrite Byte.of_to_N.
    rewrite base64_char_not_pad. cbn [andb].
    rewrite (base64_index_char _ B3), E2, Byte.of_to_N, E3.
    reflexivity.
  - cbn [base64_encode]. cbv zeta.
    pose proof (Byte.to_N_bounded a) as Ha.
    pose proof (Byte.to_N_bounded b) as Hb.
    pose proof (Byte.to_N_bounded c) as Hc.
    destruct (sextets_bounds _ _ _ Ha Hb Hc) as (B1 & B2 & B3 & B4).
    cbn [base64_decode].
    rewrite (base64_index_char _ B1), (base64_index_char _ B2).
    rewrite (sextets_first _ _ Hb). unfold byte_of. rewrite Byte.of_to_N.
    rewrite base64_char_not_pad. cbn [andb].
    rewrite (base64_index_char _ B3), (sextets_second _ _ _ Hb Hc), Byte.of_to_N.
    rewrite base64_char_not_pad.
    rewrite (base64_index_char _ B4), (sextets_third _ _ Hc), Byte.of_to_N.
    fold base64_decode. rewrite IH. reflexivity.
Qed.

Lemma base64_encode_no_comma (bs : list byte) :
  forallb (fun c => negb (c =? 44)) (base64_encode bs) = true.
Proof.
  induction bs as [|a|a b|a b c r IH] using list_ind3;
    cbn [base64_encode forallb]; cbv zeta;
    rewrite ?base64_char_not_comma; cbn [negb andb forallb];
    try reflexivity.
  exact IH.
Qed.

Lemma split_without_separator (sep : N) (s : jsstring) :
  forallb (fun c => negb (c =? sep)) s = true -> split sep s = [s].
Proof.
  induction s as [|c s IH]; [reflexivity |].
  cbn [forallb split]. intros H. apply andb_true_iff in H.
  destruct H as [Hc Hs]. apply negb_true_iff in Hc.
  rewrite Hc, (IH Hs). reflexivity.
Qed.

Lemma split_at_one_separator (sep : N) (h b : jsstring) :
  forallb (fun c => negb (c =? sep)) h = true ->
  forallb (fun c => negb (c =? sep)) b = true ->
  split sep (h ++ sep :: b) = [h; b].
Proof.
  intros Hh Hb. induction h as [|c h IH].
  - cbn [app split]. rewrite N.eqb_refl, (split_without_separator _ _ Hb).
    reflexivity.
  - cbn [forallb] in Hh. apply andb_true_iff in Hh.
    destruct Hh as [Hc Hh]. apply negb_true_iff in Hc.
    cbn [app split]. rewrite Hc, (IH Hh). reflexivity.
Qed.

(** For a blob whose type has no comma in it, a successful read resolves
    with the base64 of the bytes and nothing else. *)
Lemma blobToBase64_without_comma (W : Type)
    (read : Blob -> W -> option exn * W) (blob : Blob) (w w1 : W) :
  forallb (fun c => negb (c =? 44)) (type blob) = true ->
  read blob w = (None, w1) ->
  blobToBase64 W read blob w
  = (Fulfilled (Some (base64_encode (bytes blob))), w1, [ReadAsDataURL blob]) /\
  base64_decode (base64_encode (bytes blob)) = Some (bytes blob).
Proof.
  intros Ht Hr. split; [| apply base64_decode_encode].
  unfold blobToBase64. rewrite Hr. cbv zeta.
  assert (E : dataURL blob
              = (js "data:"
                   ++ (match type blob with
                       | [] => js "application/octet-stream"
                       | t => t
                       end) ++ js ";base64")
                  ++ 44 :: base64_encode (bytes blob)).
  { unfold dataURL. rewrite <- !app_assoc. reflexivity. }
  rewrite E, split_at_one_separator; [reflexivity | | apply base64_encode_no_comma].
  rewrite !forallb_app. destruct (type blob) as [|c t] eqn:Et.
  - reflexivity.
  - rewrite Ht. reflexivity.
Qed.

(** C6. A blob whose type lists two codecs, and so has a comma in it: the
    second field of the split data URL is a piece of the header, which is
    neither base64 nor the encoding of the bytes. *)
Theorem blobToBase64_comma_in_type :
  let w := {| readable := true; replies := [] |} in
  dataURL multi_codec_blob = js "data:audio/ogg;codecs=opus,vorbis;base64,GkXfow==" /\
  blobToBase64 mock_world mock_read multi_codec_blob w
  = (Fulfilled (Some (js "vorbis;base64")), w, [ReadAsDataURL multi_codec_blob]) /\
  base64_encode (bytes multi_codec_blob) = js "GkXfow==" /\
  base64_decode (js "vorbis;base64") = None.
Proof. repeat split; vm_compute; reflexivity. Qed.

(** ** More on the retry helper *)

Lemma warnings_app {X : Type} (l1 l2 : list (retry_event X)) :
  warnings (l1 ++ l2) = warnings l1 ++ warnings l2.
Proof.
  induction l1 as [|e l1 IH]; [reflexivity |].
  destruct e; cbn; rewrite ?IH; reflexivity.
Qed.

Lemma warnings_inner {X : Type} (l : list X) :
  warnings (List.map (@Inner X) l) = [].
Proof. induction l; cbn; auto. Qed.

(** The shape of every run: after [k] failed calls, [k] warnings that count
    down from [retries] and [k] waits that double from [delay]. *)
Lemma retry_schedule {W X T : Type} (operation : async W X T) (k : nat) :
  forall (retries delay : Z) (w : W),
    Z.to_nat retries = k ->
    let l := snd (retryOperation operation retries delay w) in
    delays l = backoff delay (invocations l - 1) /\
    warnings l = countdown retries (invocations l - 1).
Proof.
  induction k as [|k IH]; intros retries delay w Hk;
    cbv zeta; rewrite retryOperation_eq;
    destruct (operation w) as [[[v|e] w1] l1]; cbn [snd].
  1, 3: cbn; rewrite delays_inner, warnings_inner, invocations_inner;
    split; reflexivity.
  - destruct (Z_gt_dec retries 0); [lia |].
    cbn. rewrite delays_inner, warnings_inner, invocations_inner.
    split; reflexivity.
  - destruct (Z_gt_dec retries 0).
    + pose proof (IH (retries - 1)%Z (delay * 2)%Z w1 ltac:(lia)) as Hrec.
      pose proof (retry_invocations_bound operation k (retries - 1)%Z
                    (delay * 2)%Z w1 ltac:(lia)) as Hb.
      destruct (retryOperation operation (retries - 1) (delay * 2) w1)
        as [[r w2] l2]. cbn [snd] in *. cbv zeta in Hrec.
      destruct Hrec as [Hd Hw].
      cbn. rewrite delays_app, warnings_app, invocations_app.
      rewrite delays_inner, warnings_inner, invocations_inner. cbn.
      rewrite Hd, Hw.
      destruct (invocations l2) as [|m]; [lia |].
      cbn. rewrite Nat.sub_0_r. split; reflexivity.
    + cbn. rewrite delays_inner, warnings_inner, invocations_inner.
      split; reflexivity.
Qed.

(** A rejection comes only when the budget is used up. *)
Lemma retry_rejected_calls {W X T : Type} (operation : async W X T) (k : nat) :
  forall (retries delay : Z) (w : W) (e : exn) (w2 : W)
         (l : list (retry_event X)),
    Z.to_nat retries = k ->
    retryOperation operation retries delay w = (Rejected e, w2, l) ->
    invocations l = S k.
Proof.
  induction k as [|k IH]; intros retries delay w e w2 l Hk;
    rewrite retryOperation_eq;
    destruct (operation w) as [[[v|e0] w1] l1]; try discriminate.
  - destruct (Z_gt_dec retries 0); [lia |].
    intros H. injection H as _ _ <-. cbn. rewrite invocations_inner.
    reflexivity.
  - destruct (Z_gt_dec retries 0); [| lia].
    destruct (retryOperation operation (retries - 1) (delay * 2) w1)
      as [[r w3] l2] eqn:Erec.
    intros H. injection H as -> _ <-.
    pose proof (IH (retries - 1)%Z (delay * 2)%Z w1 _ _ _ ltac:(lia) Erec)
      as Hrec.
    cbn. rewrite invocations_app, invocations_inner. cbn. rewrite Hrec.
    reflexivity.
Qed.

(** X4. A fulfilment by [retryOperation] is the fulfilment of its last
    call of the operation: the same value, the world as that call left it,
    and nothing done after it. *)
Theorem retry_fulfilled_by_last_call {W X T : Type}
    (operation : async W X T) (retries delay : Z) (w w2 : W) (v : T)
    (l : list (retry_event X)) :
  retryOperation operation retries delay w = (Fulfilled v, w2, l) ->
  exists wa la l0,
    operation wa = (Fulfilled v, w2, la) /\
    l = l0 ++ Invoke :: List.map Inner la.
Proof.
  remember (Z.to_nat retries) as k eqn:Hk.
  revert retries delay w l Hk.
  induction k as [|k IH]; intros retries delay w l Hk;
    rewrite retryOperation_eq;
    destruct (operation w) as [[[v0|e0] w1] l1] eqn:Eop.
  1, 3: intros H; injection H as -> -> <-;
    exists w, l1, []; split; [exact Eop | reflexivity].
  - destruct (Z_gt_dec retries 0); [lia | discriminate].
  - destruct (Z_gt_dec retries 0); [| discriminate].
    destruct (retryOperation operation (retries - 1) (delay * 2) w1)
      as [[r w3] l2] eqn:Erec.
    intros H. injection H as -> -> <-.
    destruct (IH (retries - 1)%Z (delay * 2)%Z w1 l2 ltac:(lia) Erec)
      as (wa & la & l0 & Ha & ->).
    exists wa, la,
      (Invoke :: List.map Inner l1
         ++ ConsoleWarn retries :: SetTimeout delay :: l0).
    split; [exact Ha |].
    cbn. rewrite <- app_assoc. reflexivity.
Qed.

Lemma retry_fulfilled_by_last_call_witness :
  let w := [Rejected SyntaxError; Fulfilled 7%nat; Fulfilled 8%nat] in
  retryOperation scripted_operation 2 1000 w
  = (Fulfilled 7%nat, [Fulfilled 8%nat],
     [Invoke; Inner tt; ConsoleWarn 2; SetTimeout 1000; Invoke; Inner tt]) /\
  exists wa la l0,
    scripted_operation wa = (Fulfilled 7%nat, [Fulfilled 8%nat], la) /\
    [Invoke; Inner tt; ConsoleWarn 2; SetTimeout 1000; Invoke; Inner tt]
    = l0 ++ Invoke :: List.map Inner la.
Proof.
  intros w.
  assert (H : retryOperation scripted_operation 2 1000 w
              = (Fulfilled 7%nat, [Fulfilled 8%nat],
                 [Invoke; Inner tt; ConsoleWarn 2; SetTimeout 1000;
                  Invoke; Inner tt])) by reflexivity.
  split; [exact H |].
  exact (retry_fulfilled_by_last_call scripted_operation 2 1000 w _ _ _ H).
Defined.


(** ** More on the client *)

Lemma model_calls_app (l1 l2 : list client_event) :
  model_calls (l1 ++ l2) = (model_calls l1 + model_calls l2)%nat.
Proof.
  induction l1 as [|e l1 IH]; [reflexivity |].
  destruct e as [e|[| | |[| |]]]; cbn; rewrite ?IH; reflexivity.
Qed.

Lemma console_errors_app (l1 l2 : list client_event) :
  console_errors (l1 ++ l2) = console_errors l1 ++ console_errors l2.
Proof.
  induction l1 as [|e l1 IH]; [reflexivity |].
  destruct e as [e|[| | |[| |]]]; cbn; rewrite ?IH; reflexivity.
Qed.

Lemma waits_retry (l : list (retry_event attempt_event)) :
  waits (List.map Retry l) = delays l.
Proof.
  induction l as [|e l IH]; [reflexivity |].
  destruct e; cbn; rewrite ?IH; reflexivity.
Qed.

Lemma reads_retry (l : list (retry_event attempt_event)) :
  reads (List.map Retry l) = 0%nat.
Proof. induction l as [|e l IH]; [reflexivity | exact IH]. Qed.

Section MoreClientFacts.
Variable W : Type.
Variable read : Blob -> W -> option exn * W.
Variable generateContent :
  GenerateContentParameters -> W -> promise GenerateContentResponse * W.

(** Every attempt calls the model once, and writes to the console once if
    it fails and not at all if it succeeds. *)
Lemma attempt_calls_and_logs blob b64 w :
  let '(r, _, l) := attempt W generateContent blob b64 w in
  model_calls (List.map Retry (List.map Inner l)) = 1%nat /\
  console_errors (List.map Retry (List.map Inner l))
  = match r with
    | Fulfilled _ => []
    | Rejected e => [e]
    end.
Proof.
  rewrite attempt_eq, attempt_body_eq. cbv zeta.
  destruct (generateContent (request blob b64) w) as [[response|e] w1];
    [| split; reflexivity].
  destruct (ToBoolean (text response)); [| split; reflexivity].
  destruct (text response) as [t|]; [| split; reflexivity].
  destruct (JSON_parse (cleanText t)); split; reflexivity.
Qed.

Lemma retry_attempt_model_calls blob b64 (k : nat) :
  forall (retries delay : Z) (w : W),
    Z.to_nat retries = k ->
    model_calls
      (List.map Retry
         (snd (retryOperation (attempt W generateContent blob b64)
                 retries delay w)))
    = invocations
        (snd (retryOperation (attempt W generateContent blob b64)
                retries delay w)).
Proof.
  induction k as [|k IH]; intros retries delay w Hk;
    rewrite retryOperation_eq;
    pose proof (attempt_calls_and_logs blob b64 w) as Ha;
    destruct (attempt W generateContent blob b64 w) as [[[v|e] w1] l1];
    destruct Ha as [Ha _]; cbn [snd].
  1, 3: cbn; rewrite invocations_inner; cbn in Ha; rewrite Ha; reflexivity.
  - destruct (Z_gt_dec retries 0); [lia |].
    cbn. rewrite invocations_inner. cbn in Ha. rewrite Ha. reflexivity.
  - destruct (Z_gt_dec retries 0); [| lia].
    specialize (IH (retries - 1)%Z (delay * 2)%Z w1 ltac:(lia)).
    destruct (retryOperation (attempt W generateContent blob b64)
                (retries - 1) (delay * 2) w1) as [[r w2] l2].
    cbn [snd] in *. cbn.
    rewrite map_app, model_calls_app, invocations_app, invocations_inner.
    cbn in Ha. rewrite Ha. cbn. rewrite IH. reflexivity.
Qed.

(** X8. Every attempt of a run sends the same request: the one built from
    the blob and from what its encoding gave, so a retry resends the same
    audio with the same instructions. *)
Theorem processAudio_resends_the_same_request (blob : Blob) (w : W)
    (req : GenerateContentParameters) :
  In (Retry (Inner (GenerateContent req)))
     (snd (processAudioWithGemini W read generateContent blob w)) ->
  req = request blob (encoded blob).
Proof.
  destruct (read blob w) as [[event|] w1] eqn:Hr.
  - rewrite (processAudio_read_fails W read generateContent _ _ _ _ Hr).
    cbn. intros [H|[H|[]]]; discriminate.
  - rewrite (processAudio_read_succeeds W read generateContent _ _ _ Hr).
    destruct (retryOperation_default _ w1) as [[r w2] l] eqn:Er.
    cbn. intros [H|H]; [discriminate |].
    apply in_map_iff in H. destruct H as (y & Hy & Hin).
    injection Hy as ->.
    assert (Hl : l = snd (retryOperation_default
                            (attempt W generateContent blob (encoded blob)) w1))
      by (rewrite Er; reflexivity).
    rewrite Hl in Hin.
    apply (retry_inner_events _ _ (Z.to_nat default_retries) _ _ _ eq_refl)
      in Hin.
    destruct Hin as (w' & Hin).
    eapply attempt_requests. exact Hin.
Qed.

(** The errors that a rejected run of the retry helper around the attempt
    has written to the console: one for each call, the last one being the
    reason of the rejection. *)
Lemma retry_attempt_console_errors blob b64 (k : nat) :
  forall (retries delay : Z) (w : W) (e : exn) (w2 : W)
         (l : list (retry_event attempt_event)),
    Z.to_nat retries = k ->
    retryOperation (attempt W generateContent blob b64) retries delay w
    = (Rejected e, w2, l) ->
    exists es,
      console_errors (List.map Retry l) = es ++ [e] /\ length es = k.
Proof.
  induction k as [|k IH]; intros retries delay w e w2 l Hk;
    rewrite retryOperation_eq;
    pose proof (attempt_calls_and_logs blob b64 w) as Ha;
    destruct (attempt W generateContent blob b64 w) as [[[v|e0] w1] l1];
    destruct Ha as [_ Ha]; try discriminate.
  - destruct (Z_gt_dec retries 0); [lia |].
    intros H. injection H as -> _ <-. exists []. cbn.
    cbn in Ha. rewrite Ha. split; reflexivity.
  - destruct (Z_gt_dec retries 0); [| lia].
    destruct (retryOperation (attempt W generateContent blob b64)
                (retries - 1) (delay * 2) w1) as [[r w3] l2] eqn:Erec.
    intros H. injection H as -> _ <-.
    destruct (IH (retries - 1)%Z (delay * 2)%Z w1 _ _ _ ltac:(lia) Erec)
      as (es & Hes & Hlen).
    exists (e0 :: es). cbn.
    rewrite map_app, console_errors_app. cbn in Ha. rewrite Ha. cbn.
    rewrite Hes, Hlen. split; reflexivity.
Qed.

(** X9. [processAudioWithGemini] never gives up early: when it rejects
    after a read that succeeded, the model has been called three times,
    with waits of 1000 ms and 2000 ms in between, and three errors have
    been written to the console, the last of them the reason of the
    rejection. *)
Theorem processAudio_rejects_after_three_calls (blob : Blob) (w w1 w2 : W)
    (e : exn) (l : list client_event) :
  read blob w = (None, w1) ->
  processAudioWithGemini W read generateContent blob w = (Rejected e, w2, l) ->
  model_calls l = 3%nat /\
  waits l = [1000; 2000]%Z /\
  exists e1 e2, console_errors l = [e1; e2; e].
Proof.
  intros Hr.
  rewrite (processAudio_read_succeeds W read generateContent _ _ _ Hr).
  pose proof (retry_attempt_model_calls blob (encoded blob)
                (Z.to_nat default_retries) default_retries default_delay
                w1 eq_refl) as Hm.
  pose proof (proj1 (retry_schedule
                       (attempt W generateContent blob (encoded blob))
                       (Z.to_nat default_retries) default_retries
                       default_delay w1 eq_refl)) as Hd.
  fold (retryOperation_default (attempt W generateContent blob (encoded blob)) w1)
    in Hm, Hd.
  destruct (retryOperation_default _ w1) as [[r w3] lr] eqn:Er.
  intros H. injection H as -> -> <-.
  cbn [snd] in *.
  pose proof (retry_rejected_calls _ (Z.to_nat default_retries) _ _ _ _ _ _
                eq_refl Er) as Hc.
  destruct (retry_attempt_console_errors blob (encoded blob)
              (Z.to_nat default_retries) _ _ _ _ _ _ eq_refl Er)
    as (es & Hes & Hlen).
  cbn [model_calls waits console_errors].
  rewrite waits_retry, Hm, Hd, Hc, Hes.
  split; [reflexivity | split; [reflexivity |]].
  destruct es as [|e1 [|e2 [|e3 es]]]; try discriminate.
  exists e1, e2. reflexivity.
Qed.

(** X10. When the first reply of the model has a text that parses once
    cleaned, [processAudioWithGemini] fulfils with the parsed value after
    one call of the model, without a wait and without writing to the
    console; the value is not checked against the shape of an
    ExpenseResponse. *)
Theorem processAudio_first_reply_parses (blob : Blob) (w w1 w2 : W)
    (response : GenerateContentResponse) (t : jsstring) (v : json) :
  read blob w = (None, w1) ->
  generateContent (request blob (encoded blob)) w1 = (Fulfilled response, w2) ->
  text response = Some t ->
  t <> [] ->
  JSON_parse (cleanText t) = inr v ->
  processAudioWithGemini W read generateContent blob w
  = (Fulfilled v, w2,
     [Encoder (ReadAsDataURL blob);
      Retry Invoke;
      Retry (Inner (GenerateContent (request blob (encoded blob))));
      Retry (Inner (JSONParse (cleanText t)))]).
Proof.
  intros Hr Hg Ht Hne Hp.
  rewrite (processAudio_read_succeeds W read generateContent _ _ _ Hr).
  assert (Ha : attempt W generateContent blob (encoded blob) w1
               = (Fulfilled v, w2,
                  [GenerateContent (request blob (encoded blob));
                   JSONParse (cleanText t)])).
  { rewrite attempt_eq, attempt_body_eq. cbv zeta. rewrite Hg, Ht.
    destruct t as [|c t]; [contradiction |]. cbn [ToBoolean].
    rewrite Hp. reflexivity. }
  unfold retryOperation_default.
  rewrite (retry_fulfilled _ default_retries default_delay _ _ _ _ Ha).
  reflexivity.
Qed.

(** X11. A reply whose text is white space only is not an empty reply for
    the guard: the attempt hands the empty string to [JSON.parse] and
    fails with its [SyntaxError], not with "Empty response from Gemini". *)
Theorem attempt_on_blank_text_is_a_parse_error (blob : Blob)
    (b64 : option jsstring) (w w1 : W) (response : GenerateContentResponse)
    (t : jsstring) :
  generateContent (request blob b64) w = (Fulfilled response, w1) ->
  text response = Some t ->
  t <> [] ->
  forallb is_white_space t = true ->
  attempt W generateContent blob b64 w
  = (Rejected SyntaxError, w1,
     [GenerateContent (request blob b64); JSONParse [];
      ConsoleError (js "Gemini API Error (Attempt failed):") SyntaxError]).
Proof.
  intros Hg Ht Hne Hws.
  assert (Hc : cleanText t = []).
  { unfold cleanText.
    assert (Htrim : trim t = []).
    { unfold trim.
      replace (trimStart t) with (@nil N); [reflexivity |].
      clear Ht Hne. induction t as [|c t IH]; [reflexivity |].
      cbn [forallb] in Hws. apply andb_true_iff in Hws.
      destruct Hws as [Hc Hws]. cbn [trimStart]. rewrite Hc. exact (IH Hws). }
    rewrite Htrim. reflexivity. }
  rewrite attempt_eq, attempt_body_eq. cbv zeta. rewrite Hg, Ht.
  destruct t as [|c t]; [contradiction |]. cbn [ToBoolean].
  rewrite Hc. reflexivity.
Qed.
End MoreClientFacts.

(** ** More on cleaning the text of the reply *)

Lemma startsWith_inv (p s : jsstring) :
  startsWith s p = true -> exists r, s = p ++ r.
Proof.
  revert s. induction p as [|a p IH]; intros s.
  - exists s. reflexivity.
  - destruct s as [|b s]; cbn; [discriminate |].
    intros H. apply andb_true_iff in H. destruct H as [Hab Hs].
    apply N.eqb_eq in Hab. subst b.
    destruct (IH s Hs) as (r & ->). exists r. reflexivity.
Qed.

Lemma endsWith_inv (p s : jsstring) :
  endsWith s p = true -> exists x, s = x ++ p.
Proof.
  unfold endsWith. intros H. apply startsWith_inv in H.
  destruct H as (r & Hr). exists (rev r).
  rewrite <- (rev_involutive s), Hr, rev_app_distr, rev_involutive.
  reflexivity.
Qed.

Lemma trimStart_snoc (l : jsstring) (a : N) :
  is_white_space a = false -> trimStart (l ++ [a]) = trimStart l ++ [a].
Proof.
  intros Ha. induction l as [|c l IH]; cbn [app trimStart].
  - rewrite Ha. reflexivity.
  - destruct (is_white_space c); [exact IH | reflexivity].
Qed.

Lemma trimEnd_cons (a : N) (s : jsstring) :
  is_white_space a = false -> trimEnd (a :: s) = a :: trimEnd s.
Proof.
  intros Ha. unfold trimEnd. cbn [rev].
  rewrite (trimStart_snoc _ _ Ha), rev_app_distr. reflexivity.
Qed.

Lemma tokenize_trimEnd (s : jsstring) (ts : list token) :
  tokenize s = Some ts -> tokenize (trimEnd s) = Some ts.
Proof.
  intros H. unfold trimEnd. apply tokenize_rev_trimStart.
  rewrite rev_involutive. exact H.
Qed.

Lemma lex_start_names (toks : list token) (c : N) :
  lexer_names (lex_start toks c).
Proof. unfold lex_start. split_ifs; exact I || reflexivity. Qed.

Lemma lex_step_names (st : lexer) (c : N) :
  lexer_names st -> lexer_names (lex_step st c).
Proof.
  destruct st as [toks q]. destruct q as [|acc|acc|acc todo v|tok rest|ph acc|];
    cbn [lex_step]; intros Hok.
  - apply lex_start_names.
  - split_ifs; exact I.
  - unfold lex_escape. split_ifs; exact I.
  - destruct (hex_value c); [destruct todo as [|[|k]] |]; exact I.
  - destruct rest as [|x [|y r]]; split_ifs; try exact I.
    unfold lexer_names in *. cbn [snd forallb] in *.
    apply andb_true_iff in Hok. tauto.
  - unfold lex_number. destruct ph; split_ifs;
      try exact I; apply lex_start_names.
  - exact I.
Qed.

Lemma lex_fold_names (s : jsstring) (st : lexer) :
  lexer_names st -> lexer_names (fold_left lex_step s st).
Proof.
  revert st. induction s as [|c s IH]; intros st H; [exact H |].
  cbn. apply IH, lex_step_names, H.
Qed.

(** No JSON text ends with a backquote. *)
Lemma tokenize_backquote_end (x : jsstring) : tokenize (x ++ [96]) = None.
Proof.
  unfold tokenize. rewrite fold_left_app. cbn [fold_left].
  pose proof (lex_fold_names x ([], LBetween) I) as Hok.
  destruct (fold_left lex_step x ([], LBetween)) as [toks q].
  destruct q as [|acc|acc|acc todo v|tok rest|ph acc|]; cbn [lex_step].
  - reflexivity.
  - reflexivity.
  - reflexivity.
  - reflexivity.
  - destruct rest as [|y [|z r]]; split_ifs; try reflexivity.
    exfalso. unfold lexer_names in Hok. cbn [snd forallb] in Hok.
    match goal with H : (96 =? y) = true |- _ => apply N.eqb_eq in H; subst y end.
    discriminate.
  - unfold lex_number. destruct ph; reflexivity.
  - reflexivity.
Qed.

Lemma replace_at_end_of_JSON (m : jsstring) (ts : list token) :
  tokenize m = Some ts -> replace_at_end (js "```") m = m.
Proof.
  intros H. unfold replace_at_end.
  destruct (endsWith m (js "```")) eqn:He; [| reflexivity].
  apply endsWith_inv in He. destruct He as (x & ->).
  change (js "```") with ([96; 96] ++ [96]) in H.
  rewrite app_assoc, tokenize_backquote_end in H. discriminate.
Qed.

(** A text that starts with an upper case letter, or with a small letter
    that starts neither a literal name nor the tag [json], is not JSON. *)
Lemma tokenize_other_letter (c : N) (r : jsstring) :
  is_other_letter c = true -> tokenize (c :: r) = None.
Proof.
  intros Hc. unfold tokenize. cbn [fold_left lex_step].
  assert (E : lex_start [] c = ([], LError)).
  { unfold lex_start. unfold is_other_letter in Hc.
    split_ifs; try reflexivity; exfalso; chars. }
  rewrite E, lex_error_absorbing. reflexivity.
Qed.

Lemma tokenize_j (r : jsstring) : tokenize (106 :: r) = None.
Proof.
  unfold tokenize. cbn [fold_left].
  change (lex_step ([], LBetween) 106) with (@nil token, LError).
  rewrite lex_error_absorbing. reflexivity.
Qed.

(** [trim] of a text between backquotes, with white space around it. *)
Lemma trim_between_backquotes (before after s : jsstring) :
  forallb is_white_space before = true ->
  forallb is_white_space after = true ->
  trim (before ++ (96 :: s ++ [96]) ++ after) = 96 :: s ++ [96].
Proof.
  intros Hb Ha. unfold trim, trimEnd.
  rewrite (trimStart_white_space _ _ Hb).
  change (trimStart ((96 :: s ++ [96]) ++ after))
    with ((96 :: s ++ [96]) ++ after).
  rewrite rev_app_distr, (trimStart_white_space _ _ (forallb_rev _ _ Ha)).
  change (96 :: s ++ [96]) with ((96 :: s) ++ [96]).
  rewrite rev_app_distr.
  change (trimStart (rev [96] ++ rev (96 :: s)))
    with (rev [96] ++ rev (96 :: s)).
  rewrite <- rev_app_distr, rev_involutive. reflexivity.
Qed.

Lemma startsWith_other_tag (c : N) (s : jsstring) :
  (106 =? c) = false ->
  startsWith (96 :: 96 :: 96 :: c :: s) (js "```json") = false.
Proof.
  intros H. change (js "```json") with [96; 96; 96; 106; 115; 111; 110].
  cbn [startsWith]. rewrite !N.eqb_refl, H. reflexivity.
Qed.

(** X12. Cleaning never changes what a text that is JSON as it stands
    parses to. *)
Theorem cleaning_keeps_JSON (t : jsstring) (v : json) :
  JSON_parse t = inr v -> JSON_parse (cleanText t) = inr v.
Proof.
  intros H. destruct (JSON_parse_tokens _ _ H) as (ts & Ht & Hp).
  rewrite (cleanText_of_JSON _ _ Ht).
  unfold JSON_parse. rewrite (tokenize_trim _ _ Ht), Hp. reflexivity.
Qed.

(** X13. A fence without the [json] tag is stripped as well: a JSON text
    between two plain fences, with JSON white space inside the fences and
    white space around them, parses to what the text parses to. *)
Theorem plain_fence_parses_as_unfenced
    (before after pre post t : jsstring) (v : json) :
  forallb is_white_space before = true ->
  forallb is_white_space after = true ->
  forallb is_json_ws pre = true ->
  forallb is_json_ws post = true ->
  JSON_parse t = inr v ->
  JSON_parse (cleanText (before ++ plain_fence pre post t ++ after)) = inr v.
Proof.
  intros Hb Ha Hpre Hpost Hv.
  destruct (JSON_parse_tokens _ _ Hv) as (ts & Ht & Hp).
  pose proof (tokenize_json_ws_around _ _ _ _ Hpre Hpost Ht) as Hy.
  set (y := pre ++ t ++ post) in *.
  assert (E : plain_fence pre post t = 96 :: (96 :: 96 :: y ++ [96; 96]) ++ [96]).
  { unfold plain_fence, y. cbn. rewrite <- !app_assoc. reflexivity. }
  unfold cleanText. rewrite E, (trim_between_backquotes _ _ _ Hb Ha).
  cbv zeta.
  assert (Hj : startsWith (96 :: (96 :: 96 :: y ++ [96; 96]) ++ [96])
                 (js "```json") = false).
  { destruct y as [|c y']; [reflexivity |].
    apply startsWith_other_tag.
    destruct (106 =? c) eqn:Hc; [| reflexivity].
    apply N.eqb_eq in Hc. subst c. rewrite tokenize_j in Hy. discriminate. }
  rewrite Hj.
  change (96 :: (96 :: 96 :: y ++ [96; 96]) ++ [96])
    with (js "```" ++ (y ++ [96; 96]) ++ [96]).
  rewrite startsWith_app, replace_at_start_app.
  rewrite <- app_assoc. change ([96; 96] ++ [96]) with (js "```").
  rewrite replace_at_end_app.
  unfold JSON_parse. rewrite Hy, Hp. reflexivity.
Qed.

(** X14. A [json] fence that is never closed is stripped too: a JSON text
    after the opening fence, with JSON white space around it, parses to
    what the text parses to. *)
Theorem unclosed_fence_parses_as_unfenced
    (before pre post t : jsstring) (v : json) :
  forallb is_white_space before = true ->
  forallb is_json_ws pre = true ->
  forallb is_json_ws post = true ->
  JSON_parse t = inr v ->
  JSON_parse (cleanText (before ++ unclosed_fence pre post t)) = inr v.
Proof.
  intros Hb Hpre Hpost Hv.
  destruct (JSON_parse_tokens _ _ Hv) as (ts & Ht & Hp).
  pose proof (tokenize_json_ws_around _ _ _ _ Hpre Hpost Ht) as Hy.
  set (y := pre ++ t ++ post) in *.
  apply tokenize_trimEnd in Hy.
  assert (Htrim : trim (before ++ unclosed_fence pre post t)
                  = js "```json" ++ trimEnd y).
  { unfold trim. rewrite (trimStart_white_space _ _ Hb).
    unfold unclosed_fence. fold y.
    change (trimStart (js "```json" ++ y)) with (js "```json" ++ y).
    change (js "```json" ++ y)
      with (96 :: 96 :: 96 :: 106 :: 115 :: 111 :: 110 :: y).
    rewrite !trimEnd_cons by reflexivity. reflexivity. }
  unfold cleanText. rewrite Htrim. cbv zeta.
  rewrite startsWith_app, replace_at_start_app.
  rewrite (replace_at_end_of_JSON _ _ Hy).
  unfold JSON_parse. rewrite Hy, Hp. reflexivity.
Qed.

(** X15. A fence with another tag is not handled: when the text starts
    with three backquotes and a letter that starts neither [json] nor a
    literal name (as in a fence tagged JSON in capitals, or tagged with
    another language), the cleaned text keeps the tag and [JSON.parse]
    throws. *)
Theorem other_tag_is_a_parse_error (before rest : jsstring) (c : N) :
  forallb is_white_space before = true ->
  is_other_letter c = true ->
  JSON_parse (cleanText (before ++ js "```" ++ c :: rest)) = inl SyntaxError.
Proof.
  intros Hb Hc.
  assert (Hl : (65 <= c /\ c <= 90) \/ (97 <= c /\ c <= 122 /\ c <> 106)).
  { unfold is_other_letter in Hc.
    rewrite orb_true_iff, !andb_true_iff, negb_true_iff, !orb_false_iff,
      !N.leb_le, !N.eqb_neq in Hc. tauto. }
  assert (Hws : is_white_space c = false).
  { destruct (is_white_space c) eqn:E; [exfalso; chars | reflexivity]. }
  assert (Hj : (106 =? c) = false) by (apply N.eqb_neq; lia).
  assert (Hq : c <> 96) by lia.
  assert (Htrim : trim (before ++ js "```" ++ c :: rest)
                  = js "```" ++ c :: trimEnd rest).
  { unfold trim. rewrite (trimStart_white_space _ _ Hb).
    change (trimStart (js "```" ++ c :: rest)) with (js "```" ++ c :: rest).
    change (js "```" ++ c :: rest) with (96 :: 96 :: 96 :: c :: rest).
    rewrite !trimEnd_cons by (reflexivity || exact Hws). reflexivity. }
  unfold cleanText. rewrite Htrim. cbv zeta.
  assert (E1 : startsWith (js "```" ++ c :: trimEnd rest) (js "```json") = false).
  { apply startsWith_other_tag. exact Hj. }
  rewrite E1, startsWith_app, replace_at_start_app.
  assert (E2 : exists z, replace_at_end (js "```") (c :: trimEnd rest) = c :: z).
  { destruct (endsWith (c :: trimEnd rest) (js "```")) eqn:He.
    - apply endsWith_inv in He. destruct He as (x & Hx).
      destruct x as [|c' x].
      + cbn in Hx. injection Hx as Hx _. contradiction.
      + rewrite Hx, replace_at_end_app.
        cbn in Hx. injection Hx as <- _. exists x. reflexivity.
    - unfold replace_at_end. rewrite He. eexists; reflexivity. }
  destruct E2 as (z & ->).
  unfold JSON_parse. rewrite (tokenize_other_letter _ _ Hc). reflexivity.
Qed.

(** ** More on the encoder *)

(** X16. For a blob whose type has no comma in it, a successful read
    makes [blobToBase64] resolve with base64 that decodes to the bytes of
    the blob. *)
Theorem encoder_output_decodes_to_the_bytes (W : Type)
    (read : Blob -> W -> option exn * W) (blob : Blob) (w w1 : W) :
  forallb (fun c => negb (c =? 44)) (type blob) = true ->
  read blob w = (None, w1) ->
  exists s,
    blobToBase64 W read blob w = (Fulfilled (Some s), w1, [ReadAsDataURL blob]) /\
    base64_decode s = Some (bytes blob).
Proof.
  intros Ht Hr. exists (base64_encode (bytes blob)).
  exact (blobToBase64_without_comma W read blob w w1 Ht Hr).
Qed.

Lemma encoder_output_decodes_to_the_bytes_witness :
  let w := {| readable := true; replies := [] |} in
  forallb (fun c => negb (c =? 44)) (type recorded_blob) = true /\
  mock_read recorded_blob w = (None, w) /\
  exists s,
    blobToBase64 mock_world mock_read recorded_blob w
    = (Fulfilled (Some s), w, [ReadAsDataURL recorded_blob]) /\
    base64_decode s = Some (bytes recorded_blob).
Proof.
  intros w. split; [reflexivity | split; [reflexivity |]].
  exact (encoder_output_decodes_to_the_bytes mock_world mock_read
           recorded_blob w w eq_refl eq_refl).
Defined.

Lemma encoded_without_comma (blob : Blob) :
  forallb (fun c => negb (c =? 44)) (type blob) = true ->
  encoded blob = Some (base64_encode (bytes blob)).
Proof.
  intros Ht.
  pose proof (blobToBase64_without_comma unit (fun _ w => (None, w)) blob tt tt
                Ht eq_refl) as [H _].
  unfold blobToBase64 in H. cbv zeta in H. injection H as H. exact H.
Qed.

(** X17. From the blob to the model: for a blob whose type has no comma
    in it, every request of a run carries, as its inline data, base64 that
    decodes to the bytes of the blob, next to the fixed prompt. *)
Theorem requests_carry_the_bytes_of_the_blob (W : Type)
    (read : Blob -> W -> option exn * W)
    (generateContent :
       GenerateContentParameters -> W -> promise GenerateContentResponse * W)
    (blob : Blob) (w : W) (req : GenerateContentParameters) :
  forallb (fun c => negb (c =? 44)) (type blob) = true ->
  In (Retry (Inner (GenerateContent req)))
     (snd (processAudioWithGemini W read generateContent blob w)) ->
  exists mime s,
    contents req
    = [InlineData mime (Some s);
       TextPart (js "Please analyze this audio for expenses.")] /\
    base64_decode s = Some (bytes blob).
Proof.
  intros Ht Hin.
  assert (Hreq : req = request blob (encoded blob)).
  { destruct (read blob w) as [[event|] w1] eqn:Hr.
    - rewrite (processAudio_read_fails W read generateContent _ _ _ _ Hr) in Hin.
      cbn in Hin. destruct Hin as [H|[H|[]]]; discriminate.
    - rewrite (processAudio_read_succeeds W read generateContent _ _ _ Hr) in Hin.
      destruct (retryOperation_default _ w1) as [[r w2] l] eqn:Er.
      cbn in Hin. destruct Hin as [H|H]; [discriminate |].
      apply in_map_iff in H. destruct H as (y & Hy & Hin).
      injection Hy as ->.
      assert (Hl : l = snd (retryOperation_default
                              (attempt W generateContent blob (encoded blob)) w1))
        by (rewrite Er; reflexivity).
      rewrite Hl in Hin.
      apply (retry_inner_events _ _ (Z.to_nat default_retries) _ _ _ eq_refl)
        in Hin.
      destruct Hin as (w' & Hin).
      eapply attempt_requests. exact Hin. }
  subst req. rewrite (encoded_without_comma _ Ht).
  eexists. exists (base64_encode (bytes blob)).
  split; [reflexivity | apply base64_decode_encode].
Qed.

Lemma requests_carry_the_bytes_of_the_blob_witness :
  let w := {| readable := true; replies := [] |} in
  let req := request recorded_blob (encoded recorded_blob) in
  forallb (fun c => negb (c =? 44)) (type recorded_blob) = true /\
  In (Retry (Inner (GenerateContent req)))
     (snd (processAudioWithGemini mock_world mock_read mock_generateContent
             recorded_blob w)) /\
  exists mime s,
    contents req
    = [InlineData mime (Some s);
       TextPart (js "Please analyze this audio for expenses.")] /\
    base64_decode s = Some (bytes recorded_blob).
Proof.
  intros w req.
  assert (H : In (Retry (Inner (GenerateContent req)))
                (snd (processAudioWithGemini mock_world mock_read
                        mock_generateContent recorded_blob w)))
    by (vm_compute; tauto).
  split; [reflexivity | split; [exact H |]].
  exact (requests_carry_the_bytes_of_the_blob mock_world mock_read
           mock_generateContent recorded_blob w req eq_refl H).
Defined.

(** ** The build configuration *)

Lemma hex_value_digit (n : N) : n < 16 -> hex_value (hex_digit n) = Some n.
Proof.
  intros Hn. unfold hex_digit, hex_value.
  destruct (n <? 10) eqn:H10; split_ifs; try (f_equal; chars);
    exfalso; chars.
Qed.

Lemma lex_unicode_digit (toks : list token) (acc : jsstring) (k : nat)
    (value n : N) :
  n < 16 ->
  lex_step (toks, LUnicode acc (S k) value) (hex_digit n)
  = (toks,
     match k with
     | O => LString (value * 16 + n :: acc)
     | S _ => LUnicode acc k (value * 16 + n)
     end).
Proof.
  intros Hn. cbn [lex_step]. rewrite (hex_value_digit _ Hn).
  destruct k; reflexivity.
Qed.

Lemma four_hex_digits (c : N) :
  c < 65536 ->
  c / 4096 < 16 /\ c / 256 mod 16 < 16 /\ c / 16 mod 16 < 16 /\ c mod 16 < 16 /\
  (((0 * 16 + c / 4096) * 16 + c / 256 mod 16) * 16 + c / 16 mod 16) * 16
  + c mod 16 = c.
Proof.
  intros Hc.
  euclid (c / 256) 16. euclid (c / 16) 16.
  euclid c 4096. euclid c 256. euclid c 16. lia.
Qed.

Lemma lex_unicode_escape (toks : list token) (acc : jsstring) (c : N) :
  c < 65536 ->
  fold_left lex_step (unicode_escape c) (toks, LString acc)
  = (toks, LString (c :: acc)).
Proof.
  intros Hc. destruct (four_hex_digits c Hc) as (H1 & H2 & H3 & H4 & E).
  unfold unicode_escape. cbn [fold_left].
  change (lex_step (toks, LString acc) 92) with (toks, LEscape acc).
  change (lex_step (toks, LEscape acc) 117) with (toks, LUnicode acc 4 0).
  rewrite (lex_unicode_digit _ _ _ _ _ H1), (lex_unicode_digit _ _ _ _ _ H2),
    (lex_unicode_digit _ _ _ _ _ H3), (lex_unicode_digit _ _ _ _ _ H4).
  rewrite E. reflexivity.
Qed.

Lemma lex_plain_code_unit (toks : list token) (acc : jsstring) (c : N) :
  32 <= c -> c <> 34 -> c <> 92 ->
  lex_step (toks, LString acc) c = (toks, LString (c :: acc)).
Proof.
  intros H1 H2 H3. cbn [lex_step].
  apply N.eqb_neq in H2, H3. rewrite H2, H3.
  destruct (c <? 32) eqn:H; [exfalso; chars | reflexivity].
Qed.

Lemma lex_quote_code_unit (toks : list token) (acc : jsstring) (c : N) :
  fold_left lex_step (quote_code_unit c) (toks, LString acc)
  = (toks, LString (c :: acc)).
Proof.
  unfold quote_code_unit.
  repeat match goal with
    | |- context [if ?x =? ?k then _ else _] =>
        destruct (x =? k) eqn:?;
        [match goal with H : (_ =? _) = true |- _ =>
           apply N.eqb_eq in H; subst c; reflexivity end |]
    end.
  destruct (c <? 32) eqn:H32.
  - apply lex_unicode_escape. chars.
  - cbn [fold_left]. apply lex_plain_code_unit; chars.
Qed.

Lemma lex_quote_code_points (n : nat) :
  forall (s : jsstring) (toks : list token) (acc : jsstring),
    (length s <= n)%nat ->
    fold_left lex_step (quote_code_points s) (toks, LString acc)
    = (toks, LString (rev s ++ acc)).
Proof.
  induction n as [|n IH]; intros s toks acc Hn.
  - destruct s; [reflexivity | cbn in Hn; lia].
  - destruct s as [|c r]; [reflexivity |].
    cbn [length] in Hn. cbn [quote_code_points rev].
    rewrite <- app_assoc. cbn [app].
    destruct (is_high_surrogate c) eqn:Hh.
    + destruct r as [|d r'].
      * apply lex_unicode_escape. unfold is_high_surrogate in Hh. chars.
      * destruct (is_low_surrogate d) eqn:Hl.
        -- cbn [fold_left rev]. rewrite <- app_assoc. cbn [app].
           rewrite !lex_plain_code_unit
             by (unfold is_high_surrogate, is_low_surrogate in *; chars).
           apply IH. cbn [length] in Hn. lia.
        -- rewrite fold_left_app, lex_unicode_escape
             by (unfold is_high_surrogate in Hh; chars).
           apply IH. lia.
    + destruct (is_low_surrogate c) eqn:Hl.
      * rewrite fold_left_app, lex_unicode_escape
          by (unfold is_low_surrogate in Hl; chars).
        apply IH. lia.
      * rewrite fold_left_app, lex_quote_code_unit. apply IH. lia.
Qed.

(** [JSON.parse] reads back what [JSON.stringify] wrote. *)
Lemma JSON_parse_QuoteJSONString (s : jsstring) :
  JSON_parse (QuoteJSONString s) = inr (JString s).
Proof.
  unfold JSON_parse, tokenize, QuoteJSONString. cbn [fold_left].
  change (lex_step ([], LBetween) 34) with (@nil token, LString []).
  rewrite fold_left_app, (lex_quote_code_points (length s)) by lia.
  cbn [fold_left lex_step]. rewrite N.eqb_refl.
  cbn [lex_finish rev app]. rewrite app_nil_r, rev_involutive.
  reflexivity.
Qed.

(** X18. The text that the build puts in place of [process.env.API_KEY]
    is a JSON string that denotes the value of [VITE_API_KEY], whatever
    characters the key is made of: quotes, backslashes, control
    characters and lone surrogates come back as they were. *)
Theorem build_literal_denotes_the_key
    (loadEnv : jsstring -> jsstring -> jsstring -> jsstring -> option jsstring)
    (cwd mode key : jsstring) :
  loadEnv mode cwd [] (js "VITE_API_KEY") = Some key ->
  exists literal,
    define (viteConfig loadEnv cwd mode)
    = [(js "process.env.API_KEY", Some literal)] /\
    JSON_parse literal = inr (JString key).
Proof.
  intros H. exists (QuoteJSONString key). split.
  - unfold viteConfig. cbn [define]. rewrite H. reflexivity.
  - apply JSON_parse_QuoteJSONString.
Qed.

Lemma build_literal_denotes_the_key_witness :
  let key := [65; 34; 92; 10; 1; 55357; 56832; 56832; 233] in
  env_file (js "production") (js "/app") [] (js "VITE_API_KEY") = Some key /\
  exists literal,
    define (viteConfig env_file (js "/app") (js "production"))
    = [(js "process.env.API_KEY", Some literal)] /\
    JSON_parse literal = inr (JString key).
Proof.
  intros key. split; [reflexivity |].
  exact (build_literal_denotes_the_key env_file (js "/app") (js "production")
           key eq_refl).
Defined.

(** ** Witnesses *)

Lemma processAudio_resends_the_same_request_witness :
  let w := {| readable := true; replies := [] |} in
  let req := request recorded_blob (Some (js "GkXfow==")) in
  In (Retry (Inner (GenerateContent req)))
     (snd (processAudioWithGemini mock_world mock_read mock_generateContent
             recorded_blob w)) /\
  req = request recorded_blob (encoded recorded_blob).
Proof.
  intros w req.
  assert (H : In (Retry (Inner (GenerateContent req)))
                (snd (processAudioWithGemini mock_world mock_read
                        mock_generateContent recorded_blob w)))
    by (vm_compute; tauto).
  split; [exact H |].
  exact (processAudio_resends_the_same_request mock_world mock_read
           mock_generateContent recorded_blob w req H).
Defined.

Lemma processAudio_rejects_after_three_calls_witness :
  let w :=
    {| readable := true;
       replies := [Rejected (Foreign (js "503"));
                   Fulfilled {| text := Some (js "not json") |};
                   Fulfilled {| text := None |}] |} in
  let w2 := {| readable := true; replies := [] |} in
  let run :=
    processAudioWithGemini mock_world mock_read mock_generateContent
      recorded_blob w in
  mock_read recorded_blob w = (None, w) /\
  run = (Rejected empty_response_error, w2, snd run) /\
  model_calls (snd run) = 3%nat /\
  waits (snd run) = [1000; 2000]%Z /\
  exists e1 e2, console_errors (snd run) = [e1; e2; empty_response_error].
Proof.
  intros w w2 run.
  assert (Hr : mock_read recorded_blob w = (None, w)) by reflexivity.
  assert (Hp : run = (Rejected empty_response_error, w2, snd run))
    by (vm_compute; reflexivity).
  split; [exact Hr | split; [exact Hp |]].
  exact (processAudio_rejects_after_three_calls mock_world mock_read
           mock_generateContent recorded_blob w w w2 empty_response_error
           (snd run) Hr Hp).
Defined.

Lemma processAudio_first_reply_parses_witness :
  let w :=
    {| readable := true;
       replies := [Fulfilled {| text := Some (js "null") |}] |} in
  let w2 := {| readable := true; replies := [] |} in
  let req := request recorded_blob (encoded recorded_blob) in
  mock_read recorded_blob w = (None, w) /\
  mock_generateContent req w = (Fulfilled {| text := Some (js "null") |}, w2) /\
  js "null" <> [] /\
  JSON_parse (cleanText (js "null")) = inr JNull /\
  conforms responseSchema JNull = false /\
  processAudioWithGemini mock_world mock_read mock_generateContent
    recorded_blob w
  = (Fulfilled JNull, w2,
     [Encoder (ReadAsDataURL recorded_blob);
      Retry Invoke;
      Retry (Inner (GenerateContent req));
      Retry (Inner (JSONParse (cleanText (js "null"))))]).
Proof.
  intros w w2 req.
  assert (Hne : js "null" <> []) by discriminate.
  split; [reflexivity | split; [reflexivity | split; [exact Hne |]]].
  split; [reflexivity | split; [reflexivity |]].
  exact (processAudio_first_reply_parses mock_world mock_read
           mock_generateContent recorded_blob w w w2
           {| text := Some (js "null") |} (js "null") JNull
           eq_refl eq_refl eq_refl Hne eq_refl).
Defined.

Lemma attempt_on_blank_text_is_a_parse_error_witness :
  let w :=
    {| readable := true;
       replies := [Fulfilled {| text := Some [32; 10] |}] |} in
  let w1 := {| readable := true; replies := [] |} in
  let req := request recorded_blob (encoded recorded_blob) in
  mock_generateContent req w = (Fulfilled {| text := Some [32; 10] |}, w1) /\
  [32; 10] <> @nil N /\
  forallb is_white_space [32; 10] = true /\
  attempt mock_world mock_generateContent recorded_blob
    (encoded recorded_blob) w
  = (Rejected SyntaxError, w1,
     [GenerateContent req; JSONParse [];
      ConsoleError (js "Gemini API Error (Attempt failed):") SyntaxError]).
Proof.
  intros w w1 req.
  assert (Hne : [32; 10] <> @nil N) by discriminate.
  split; [reflexivity | split; [exact Hne | split; [reflexivity |]]].
  exact (attempt_on_blank_text_is_a_parse_error mock_world
           mock_generateContent recorded_blob (encoded recorded_blob) w w1
           {| text := Some [32; 10] |} [32; 10] eq_refl eq_refl Hne eq_refl).
Defined.

Lemma cleaning_keeps_JSON_witness :
  JSON_parse ([10] ++ js "[1, 2]" ++ [32])
  = inr (JArray [JNumber (js "1"); JNumber (js "2")]) /\
  JSON_parse (cleanText ([10] ++ js "[1, 2]" ++ [32]))
  = inr (JArray [JNumber (js "1"); JNumber (js "2")]).
Proof.
  split; [reflexivity |].
  exact (cleaning_keeps_JSON ([10] ++ js "[1, 2]" ++ [32])
           (JArray [JNumber (js "1"); JNumber (js "2")]) eq_refl).
Defined.

Lemma plain_fence_parses_as_unfenced_witness :
  forallb is_white_space [32] = true /\
  forallb is_white_space [10] = true /\
  forallb is_json_ws [10] = true /\
  forallb is_json_ws [13; 10] = true /\
  JSON_parse (js "[1, 2]")
  = inr (JArray [JNumber (js "1"); JNumber (js "2")]) /\
  JSON_parse
    (cleanText ([32] ++ plain_fence [10] [13; 10] (js "[1, 2]") ++ [10]))
  = inr (JArray [JNumber (js "1"); JNumber (js "2")]).
Proof.
  repeat (split; [reflexivity |]).
  exact (plain_fence_parses_as_unfenced [32] [10] [10] [13; 10] (js "[1, 2]")
           (JArray [JNumber (js "1"); JNumber (js "2")])
           eq_refl eq_refl eq_refl eq_refl eq_refl).
Defined.

Lemma unclosed_fence_parses_as_unfenced_witness :
  forallb is_white_space [32] = true /\
  forallb is_json_ws [10] = true /\
  forallb is_json_ws [10; 10] = true /\
  JSON_parse (js "[1, 2]")
  = inr (JArray [JNumber (js "1"); JNumber (js "2")]) /\
  JSON_parse (cleanText ([32] ++ unclosed_fence [10] [10; 10] (js "[1, 2]")))
  = inr (JArray [JNumber (js "1"); JNumber (js "2")]).
Proof.
  repeat (split; [reflexivity |]).
  exact (unclosed_fence_parses_as_unfenced [32] [10] [10; 10] (js "[1, 2]")
           (JArray [JNumber (js "1"); JNumber (js "2")])
           eq_refl eq_refl eq_refl eq_refl).
Defined.

Lemma other_tag_is_a_parse_error_witness :
  forallb is_white_space [] = true /\
  is_other_letter 74 = true /\
  JSON_parse
    (cleanText ([] ++ js "```" ++ 74 :: js "SON" ++ [10] ++ sample_response
                   ++ [10] ++ js "```"))
  = inl SyntaxError.
Proof.
  split; [reflexivity | split; [reflexivity |]].
  exact (other_tag_is_a_parse_error []
           (js "SON" ++ [10] ++ sample_response ++ [10] ++ js "```") 74
           eq_refl eq_refl).
Defined.

(** ** The retry helper with the numbers of JavaScript *)

Lemma number_invocations_app {X : Type} (l1 l2 : list (number_event X)) :
  number_invocations (l1 ++ l2)
  = (number_invocations l1 + number_invocations l2)%nat.
Proof.
  induction l1 as [|e l1 IH]; [reflexivity |].
  destruct e; cbn; rewrite ?IH; reflexivity.
Qed.

Lemma number_invocations_inner {X : Type} (l : list X) :
  number_invocations (List.map NInner l) = 0%nat.
Proof. induction l; cbn; auto. Qed.

Lemma number_delays_app {X : Type} (l1 l2 : list (number_event X)) :
  number_delays (l1 ++ l2) = number_delays l1 ++ number_delays l2.
Proof.
  induction l1 as [|e l1 IH]; [reflexivity |].
  destruct e; cbn; rewrite ?IH; reflexivity.
Qed.

Lemma number_delays_inner {X : Type} (l : list X) :
  number_delays (List.map (@NInner X) l) = [].
Proof. induction l; cbn; auto. Qed.

Lemma number_warnings_app {X : Type} (l1 l2 : list (number_event X)) :
  number_warnings (l1 ++ l2) = number_warnings l1 ++ number_warnings l2.
Proof.
  induction l1 as [|e l1 IH]; [reflexivity |].
  destruct e; cbn; rewrite ?IH; reflexivity.
Qed.

Lemma number_warnings_inner {X : Type} (l : list X) :
  number_warnings (List.map (@NInner X) l) = [].
Proof. induction l; cbn; auto. Qed.

Ltac number_trace :=
  cbn [number_invocations number_delays number_warnings];
  rewrite ?number_invocations_app, ?number_delays_app, ?number_warnings_app,
    ?number_invocations_inner, ?number_delays_inner, ?number_warnings_inner;
  cbn [number_invocations number_delays number_warnings app Nat.add].

(** A settled run stays what it is when more fuel is given. *)
Lemma retry_number_more_fuel {W X T : Type} (operation : async W X T)
    (fuel : nat) :
  forall (retries delay : float) (w : W) res (fuel' : nat),
    retryOperation_number fuel operation retries delay w = Some res ->
    (fuel <= fuel')%nat ->
    retryOperation_number fuel' operation retries delay w = Some res.
Proof.
  induction fuel as [|fuel IH]; intros retries delay w res fuel' H Hle;
    [discriminate |].
  destruct fuel' as [|fuel']; [lia |].
  cbn [retryOperation_number] in *.
  destruct (operation w) as [[[v|e] w1] l1]; [exact H |].
  destruct (0 <? retries)%float; [| exact H].
  destruct (retryOperation_number fuel operation (retries - 1) (delay * 2) w1)
    as [res1|] eqn:E; [| discriminate].
  rewrite (IH _ _ _ _ fuel' E ltac:(lia)). exact H.
Qed.

(** What every settled run looks like: one warning and one wait before
    every call but the first, the waits doubling and the budgets going down
    by one as binary64 computes them; and a rejection only once the budget
    is no longer above 0. *)
Lemma retry_number_schedule {W X T : Type} (operation : async W X T)
    (fuel : nat) :
  forall (retries delay : float) (w : W) r w1 l,
    retryOperation_number fuel operation retries delay w = Some (r, w1, l) ->
    (1 <= number_invocations l)%nat /\
    number_delays l = number_backoff delay (number_invocations l - 1) /\
    number_warnings l = number_countdown retries (number_invocations l - 1) /\
    ((exists e, r = Rejected e) ->
     counts_down retries (number_invocations l - 1) = true).
Proof.
  induction fuel as [|fuel IH]; intros retries delay w r w1 l H;
    [discriminate |].
  cbn [retryOperation_number] in H.
  destruct (operation w) as [[[v|e] w2] l1].
  - injection H as <- <- <-. number_trace.
    repeat split; try lia. intros (e & He). discriminate.
  - destruct (0 <? retries)%float eqn:Hpos.
    + destruct (retryOperation_number fuel operation (retries - 1)
                  (delay * 2) w2) as [[[r3 w3] l3]|] eqn:E; [| discriminate].
      injection H as <- <- <-.
      destruct (IH _ _ _ _ _ _ E) as (H1 & Hd & Hw & Hr).
      number_trace.
      destruct (number_invocations l3) as [|m]; [lia |].
      replace (S m - 1)%nat with m in * by lia.
      replace (S (S m) - 1)%nat with (S m) by lia.
      cbn [number_backoff number_countdown counts_down].
      rewrite Hd, Hw, Hpos. repeat split; try lia.
      intros Hrej. exact (Hr Hrej).
    + injection H as <- <- <-. number_trace.
      repeat split; try lia.
      intros _. change (counts_down retries 0 = true).
      cbn [counts_down]. rewrite Hpos. reflexivity.
Qed.




Lemma to_number_inner {X : Type} (l : list X) :
  List.map to_number_event (List.map Inner l) = List.map NInner l.
Proof. rewrite map_map. reflexivity. Qed.

Ltac to_numbers :=
  repeat (cbn [List.map to_number_event];
          rewrite ?map_app, ?to_number_inner);
  try change (number_of_Z 2) with 2%float;
  try change (number_of_Z 1) with 1%float;
  try change (number_of_Z 1000) with 1000%float;
  try change (number_of_Z 2000) with 2000%float.

(** At the default budget and delay the integers are exact: the helper
    with numbers does what [retryOperation] with integers does. *)
Lemma retryOperation_default_exact {W X T : Type} (operation : async W X T)
    (w : W) :
  retryOperation_number 3 operation 2 1000 w
  = Some (let '(r, w1, l) := retryOperation_default operation w in
          (r, w1, List.map to_number_event l)).
Proof.
  unfold retryOperation_default, default_retries, default_delay.
  cbn [retryOperation_number].
  rewrite retryOperation_eq.
  destruct (operation w) as [[[v|e] w1] l1].
  { to_numbers. reflexivity. }
  change (0 <? 2)%float with true. cbv iota.
  change (2 - 1)%float with 1%float. change (1000 * 2)%float with 2000%float.
  destruct (Z_gt_dec 2 0) as [_|]; [| lia].
  change (2 - 1)%Z with 1%Z. change (1000 * 2)%Z with 2000%Z.
  rewrite retryOperation_eq.
  destruct (operation w1) as [[[v|e2] w2] l2].
  { to_numbers. reflexivity. }
  change (0 <? 1)%float with true. cbv iota.
  change (1 - 1)%float with 0%float. change (2000 * 2)%float with 4000%float.
  destruct (Z_gt_dec 1 0) as [_|]; [| lia].
  change (1 - 1)%Z with 0%Z. change (2000 * 2)%Z with 4000%Z.
  rewrite retryOperation_eq.
  destruct (operation w2) as [[[v|e3] w3] l3].
  { to_numbers. reflexivity. }
  change (0 <? 0)%float with false. cbv iota.
  destruct (Z_gt_dec 0 0) as [|_]; [lia |].
  to_numbers. reflexivity.
Qed.





(** X3. [retryOperation] never gives up early: when it rejects, every
    call of the operation but the last was made with a budget above 0, and
    the last with a budget that is not above 0 (so a budget of zero or
    less, or NaN, allows one call, and a budget of one half two). *)
Theorem retry_rejects_only_when_exhausted {W X T : Type}
    (operation : async W X T) (fuel : nat) (retries delay : float)
    (w w1 : W) (e : exn) (l : list (number_event X)) :
  retryOperation_number fuel operation retries delay w
  = Some (Rejected e, w1, l) ->
  counts_down retries (number_invocations l - 1) = true.
Proof.
  intros H.
  apply (proj2 (proj2 (proj2 (retry_number_schedule _ _ _ _ _ _ _ _ H)))).
  exists e. reflexivity.
Qed.

Lemma retry_rejects_only_when_exhausted_witness :
  let l := [NInvoke; NInner tt; NConsoleWarn 0.5; NSetTimeout 1000;
            NInvoke; NInner tt] in
  retryOperation_number 2 failing_operation 0.5 1000 tt
  = Some (Rejected (Foreign (js "503")), tt, l) /\
  counts_down 0.5 (number_invocations l - 1) = true /\
  number_invocations l = 2%nat.
Proof.
  intros l.
  assert (H : retryOperation_number 2 failing_operation 0.5 1000 tt
              = Some (Rejected (Foreign (js "503")), tt, l)) by reflexivity.
  split; [exact H | split; [| reflexivity]].
  exact (retry_rejects_only_when_exhausted failing_operation 2 0.5 1000
           tt tt _ l H).
Defined.

(** X5. For a budget that counts down in [k] steps, [retryOperation] is
    the bounded loop that calls the operation until it first succeeds, at
    most [k + 1] times, each call in the world the one before left: the
    promise and the world it returns are those of that loop, whatever the
    delay. *)
Theorem retry_is_a_bounded_loop {W X T : Type} (operation : async W X T)
    (k : nat) :
  forall (retries delay : float) (w : W),
    counts_down retries k = true ->
    exists l : list (number_event X),
      forall fuel, (k < fuel)%nat ->
        retryOperation_number fuel operation retries delay w
        = Some (call_until_success operation k w, l).
Proof.
  induction k as [|k IH]; intros retries delay w Hk; cbn [counts_down] in Hk.
  - apply negb_true_iff in Hk. cbn [call_until_success].
    destruct (operation w) as [[[v|e] w1] l1] eqn:Eop;
      exists (NInvoke :: List.map NInner l1);
      intros [|fuel] Hf; try lia; cbn [retryOperation_number];
      rewrite Eop, ?Hk; reflexivity.
  - apply andb_true_iff in Hk. destruct Hk as [Hpos Hk].
    cbn [call_until_success].
    destruct (operation w) as [[[v|e] w1] l1] eqn:Eop.
    + exists (NInvoke :: List.map NInner l1).
      intros [|fuel] Hf; [lia |]. cbn [retryOperation_number].
      rewrite Eop. reflexivity.
    + destruct (IH (retries - 1)%float (delay * 2)%float w1 Hk) as (l2 & Hrun).
      exists (NInvoke :: List.map NInner l1
                ++ NConsoleWarn retries :: NSetTimeout delay :: l2).
      intros [|fuel] Hf; [lia |]. cbn [retryOperation_number].
      rewrite Eop, Hpos, (Hrun fuel ltac:(lia)).
      destruct (call_until_success operation k w1). reflexivity.
Qed.

Lemma retry_is_a_bounded_loop_witness :
  let w := [Rejected SyntaxError; Fulfilled 7%nat; Fulfilled 8%nat] in
  counts_down 2 2 = true /\
  call_until_success scripted_operation 2 w
  = (Fulfilled 7%nat, [Fulfilled 8%nat]) /\
  exists l : list (number_event unit),
    forall fuel, (2 < fuel)%nat ->
      retryOperation_number fuel scripted_operation 2 1000 w
      = Some (call_until_success scripted_operation 2 w, l).
Proof.
  intros w. split; [reflexivity | split; [reflexivity |]].
  exact (retry_is_a_bounded_loop scripted_operation 2 2%float 1000%float w
           eq_refl).
Defined.

(** X6. Against an operation that always fails, a budget that counts down
    in [k] steps costs [k + 1] calls and [k] waits, doubling from [delay],
    before the rejection: 3 calls and waits of 1000 and 2000 ms with the
    default budget and delay. *)
Theorem retry_cost_of_persistent_failure {W X T : Type}
    (operation : async W X T) (k : nat) :
  forall (retries delay : float) (w : W),
    always_fails operation ->
    counts_down retries k = true ->
    exists e w1 l,
      (forall fuel, (k < fuel)%nat ->
         retryOperation_number fuel operation retries delay w
         = Some (Rejected e, w1, l)) /\
      number_invocations l = S k /\
      number_delays l = number_backoff delay k.
Proof.
  induction k as [|k IH]; intros retries delay w Hf Hk;
    cbn [counts_down] in Hk; destruct (Hf w) as (e & w1 & l1 & Eop).
  - apply negb_true_iff in Hk.
    exists e, w1, (NInvoke :: List.map NInner l1). split; [| split].
    + intros [|fuel] Hfuel; [lia |]. cbn [retryOperation_number].
      rewrite Eop, Hk. reflexivity.
    + number_trace. reflexivity.
    + number_trace. reflexivity.
  - apply andb_true_iff in Hk. destruct Hk as [Hpos Hk].
    destruct (IH (retries - 1)%float (delay * 2)%float w1 Hf Hk)
      as (e2 & w2 & l2 & Hrun & Hc & Hd).
    exists e2, w2,
      (NInvoke :: List.map NInner l1
         ++ NConsoleWarn retries :: NSetTimeout delay :: l2).
    split; [| split].
    + intros [|fuel] Hfuel; [lia |]. cbn [retryOperation_number].
      rewrite Eop, Hpos, (Hrun fuel ltac:(lia)). reflexivity.
    + number_trace. rewrite Hc. reflexivity.
    + number_trace. rewrite Hd. reflexivity.
Qed.

Lemma retry_cost_of_persistent_failure_witness :
  always_fails failing_operation /\
  counts_down 2 2 = true /\
  number_backoff 1000 2 = [1000; 2000]%float /\
  exists e w1 l,
    (forall fuel, (2 < fuel)%nat ->
       retryOperation_number fuel failing_operation 2 1000 tt
       = Some (Rejected e, w1, l)) /\
    number_invocations l = 3%nat /\
    number_delays l = number_backoff 1000 2.
Proof.
  assert (H : always_fails failing_operation).
  { intros w. exists (Foreign (js "503")), w, [tt]. reflexivity. }
  split; [exact H | split; [reflexivity | split; [reflexivity |]]].
  exact (retry_cost_of_persistent_failure failing_operation 2 2%float
           1000%float tt H eq_refl).
Defined.

(** ** The client with its first line *)

Lemma processAudio_effort (W : Type)
    (read : Blob -> W -> option exn * W)
    (generateContent :
       GenerateContentParameters -> W -> promise GenerateContentResponse * W)
    (blob : Blob) (w : W) :
  let l := snd (processAudioWithGemini W read generateContent blob w) in
  reads l = 1%nat /\
  (model_calls l <= 3)%nat /\
  waits l = backoff 1000 (model_calls l - 1).
Proof.
  cbv zeta. destruct (read blob w) as [[event|] w1] eqn:Hr.
  - rewrite (processAudio_read_fails W read generateContent _ _ _ _ Hr).
    cbn. repeat split. lia.
  - rewrite (processAudio_read_succeeds W read generateContent _ _ _ Hr).
    pose proof (retry_attempt_model_calls W generateContent blob (encoded blob)
                  (Z.to_nat default_retries) default_retries default_delay
                  w1 eq_refl) as Hm.
    pose proof (retry_invocations_bound
                  (attempt W generateContent blob (encoded blob))
                  (Z.to_nat default_retries) default_retries default_delay
                  w1 eq_refl) as Hb.
    pose proof (proj1 (retry_schedule
                         (attempt W generateContent blob (encoded blob))
                         (Z.to_nat default_retries) default_retries
                         default_delay w1 eq_refl)) as Hd.
    fold (retryOperation_default (attempt W generateContent blob (encoded blob)) w1)
      in Hm, Hb, Hd.
    destruct (retryOperation_default _ w1) as [[r w2] l].
    cbn [snd] in *. cbn [reads model_calls waits].
    rewrite reads_retry, waits_retry, Hm, Hd.
    repeat split. cbn in Hb. lia.
Qed.

(** X7. In every run of [processAudioWithGemini], the constructor of the
    client included: when the constructor throws, the promise is rejected
    with what it threw and nothing else is done, no read and no call of
    the model; otherwise the blob is read exactly once. In either case the
    model is called at most three times and the waits between the calls
    are 1000 ms and then 2000 ms. *)
Theorem processAudio_bounded_effort (W : Type)
    (newGoogleGenAI : option jsstring -> W -> option exn)
    (read : Blob -> W -> option exn * W)
    (generateContent :
       GenerateContentParameters -> W -> promise GenerateContentResponse * W)
    (API_KEY : option jsstring) (blob : Blob) (w : W) :
  let run :=
    processAudioWithGemini_with_client W newGoogleGenAI read generateContent
      API_KEY blob w in
  match newGoogleGenAI API_KEY w with
  | Some error => run = (Rejected error, w, [])
  | None => reads (snd run) = 1%nat
  end /\
  (reads (snd run) <= 1)%nat /\
  (model_calls (snd run) <= 3)%nat /\
  waits (snd run) = backoff 1000 (model_calls (snd run) - 1).
Proof.
  cbv zeta. unfold processAudioWithGemini_with_client.
  destruct (newGoogleGenAI API_KEY w) as [error|].
  - cbn. repeat split; lia.
  - destruct (processAudio_effort W read generateContent blob w)
      as (Hr & Hm & Hw).
    rewrite Hr. repeat split; try assumption; lia.
Qed.

(** The integer budgets count down in as many steps as they say (here, up
    to 1024). *)
Lemma integer_budgets_count_down :
  forallb (fun n => counts_down (number_of_Z (Z.of_nat n)) n) (seq 0 1025)
  = true.
Proof. vm_compute. reflexivity. Qed.

Example processAudio_without_a_key :
  let w := {| readable := true; replies := [] |} in
  processAudioWithGemini_with_client mock_world mock_newGoogleGenAI mock_read
    mock_generateContent None recorded_blob w
  = (Rejected (Error (js "An API Key must be set when running in a browser")),
     w, []).
Proof. reflexivity. Qed.
